(** * Lottery: the draw/registration logic of [LotteryApp]

    A shallow embedding of the React component [LotteryApp]
    (src/component/Dashboard.tsx and its sibling variant) and the
    properties of its registration, removal, draw, saving and loading
    logic.

    The component keeps its state in [useState] hooks.  Event handlers
    are closures over the values of the render in which they were
    created; React re-renders after every handled event, so a handler
    invoked by a user event sees the current state, whereas the callback
    of [setInterval] keeps the values of the render in which [handleDraw]
    ran.  The embedding makes this explicit: the closure of a running
    interval is part of the model. *)

From Stdlib Require Import ZArith List Bool Lia String Ascii.
From Stdlib Require Import Floats.SpecFloat.
From Stdlib Require DecimalFacts DecimalPos.
Import ListNotations.
Local Open Scope Z_scope.

(** ** JavaScript strings *)

(** A JavaScript string is a sequence of UTF-16 code units. *)
Definition code_unit := Z.
Definition jsstring := list code_unit.

(** A string literal of this file, as a JavaScript string. *)
Definition js (s : string) : jsstring :=
  map (fun a => Z.of_nat (nat_of_ascii a)) (list_ascii_of_string s).

(** ECMAScript WhiteSpace and LineTerminator code points, the ones
    [String.prototype.trim] strips. *)
Definition is_white_space (c : code_unit) : bool :=
  (c =? 9) || (c =? 10) || (c =? 11) || (c =? 12) || (c =? 13) ||
  (c =? 32) || (c =? 160) || (c =? 5760) ||
  ((8192 <=? c) && (c <=? 8202)) ||
  (c =? 8232) || (c =? 8233) || (c =? 8239) || (c =? 8287) ||
  (c =? 12288) || (c =? 65279).

Fixpoint trimStart (s : jsstring) : jsstring :=
  match s with
  | c :: r => if is_white_space c then trimStart r else s
  | [] => []
  end.

Definition trimEnd (s : jsstring) : jsstring := rev (trimStart (rev s)).

Definition trim (s : jsstring) : jsstring := trimEnd (trimStart s).

(** ToBoolean on a string: the empty string is the only falsy one. *)
Definition truthy (s : jsstring) : bool :=
  match s with [] => false | _ :: _ => true end.

(** ** Data model *)

(** [type Player = { name: string; number: string; id: number }] *)
Module Player.
Record t := mk { name : jsstring; number : jsstring; id : Z }.
End Player.

(** [type Winner = Player & { date: string }] *)
Module Winner.
Record t := mk { name : jsstring; number : jsstring; id : Z; date : jsstring }.
End Winner.

(** [{ ...newWinner, date: d }] *)
Definition spread_with_date (p : Player.t) (d : jsstring) : Winner.t :=
  Winner.mk (Player.name p) (Player.number p) (Player.id p) d.

(** The two variants of the component differ in one line of the draw,
    the update of the pool once the winner is known. *)
Inductive Variant := DashboardTsx | Part000.

(** The [useState] cells of the component. *)
Record State := mkState {
  players : list Player.t;
  name : jsstring;
  number : jsstring;
  winner : option Player.t;
  isDrawing : bool;
  winnersHistory : list Winner.t;
  showConfetti : bool;
  showWinnerPopup : bool
}.

(** The state of the first render. *)
Definition initialState : State :=
  mkState [] [] [] None false [] false false.

Definition setPlayers (v : list Player.t) (s : State) : State :=
  mkState v (name s) (number s) (winner s) (isDrawing s)
          (winnersHistory s) (showConfetti s) (showWinnerPopup s).
Definition setName (v : jsstring) (s : State) : State :=
  mkState (players s) v (number s) (winner s) (isDrawing s)
          (winnersHistory s) (showConfetti s) (showWinnerPopup s).
Definition setNumber (v : jsstring) (s : State) : State :=
  mkState (players s) (name s) v (winner s) (isDrawing s)
          (winnersHistory s) (showConfetti s) (showWinnerPopup s).
Definition setWinner (v : option Player.t) (s : State) : State :=
  mkState (players s) (name s) (number s) v (isDrawing s)
          (winnersHistory s) (showConfetti s) (showWinnerPopup s).
Definition setIsDrawing (v : bool) (s : State) : State :=
  mkState (players s) (name s) (number s) (winner s) v
          (winnersHistory s) (showConfetti s) (showWinnerPopup s).
Definition setWinnersHistory (v : list Winner.t) (s : State) : State :=
  mkState (players s) (name s) (number s) (winner s) (isDrawing s)
          v (showConfetti s) (showWinnerPopup s).
Definition setShowConfetti (v : bool) (s : State) : State :=
  mkState (players s) (name s) (number s) (winner s) (isDrawing s)
          (winnersHistory s) v (showWinnerPopup s).
Definition setShowWinnerPopup (v : bool) (s : State) : State :=
  mkState (players s) (name s) (number s) (winner s) (isDrawing s)
          (winnersHistory s) (showConfetti s) v.

(** ** Handlers that only touch the hooks *)

(** [handleRegister]; [now] is the value of [Date.now()]. *)
Definition handleRegister (now : Z) (s : State) : State :=
  if negb (truthy (trim (name s))) || negb (truthy (trim (number s))) then s
  else
    let newPlayer := Player.mk (trim (name s)) (trim (number s)) now in
    setNumber [] (setName [] (setPlayers (players s ++ [newPlayer]) s)).

(** [handleKeyPress]: the Enter key registers. *)
Definition handleKeyPress (key : jsstring) (now : Z) (s : State) : State :=
  if list_eq_dec Z.eq_dec key (js "Enter") then handleRegister now s else s.

Definition closeWinnerPopup (s : State) : State := setShowWinnerPopup false s.

Definition clearHistory (s : State) : State := setWinnersHistory [] s.

(** [players.filter((player) => player.id !== id)] *)
Definition removePlayer (id : Z) (s : State) : State :=
  setPlayers (filter (fun player => negb (Player.id player =? id)) (players s)) s.

Definition clearAllPlayers (s : State) : State := setPlayers [] s.

(** ** Numbers

    Every JavaScript number is an IEEE 754 binary64 value.  The draw
    multiplies the result of [Math.random()] by [players.length] and takes
    [Math.floor]; the embedding uses the binary64 operations of the
    standard library's [SpecFloat]. *)

Definition prec : Z := 53.
Definition emax : Z := 1024.

(** The Number that holds an array length. *)
Definition Number_of_length (n : nat) : spec_float :=
  binary_normalize prec emax (Z.of_nat n) 0 false.

(** The operator [*] on Numbers. *)
Definition Number_mul (x y : spec_float) : spec_float := SFmul prec emax x y.

(** What [Math.random()] may return: a Number with positive sign,
    greater than or equal to 0 and less than 1. *)
Definition is_random_value (r : spec_float) : bool :=
  match r with
  | S754_zero false => true
  | S754_finite false _ _ => valid_binary prec emax r && SFltb r (SFone prec emax)
  | _ => false
  end.

(** [Math.floor], as the integer it denotes; [None] for NaN and the
    infinities, which [Math.floor] returns unchanged. *)
Definition Math_floor (x : spec_float) : option Z :=
  match x with
  | S754_zero _ => Some 0
  | S754_finite s m e =>
      let v := if s then Zneg m else Zpos m in
      Some (if 0 <=? e then v * 2 ^ e else v / 2 ^ (- e))
  | S754_infinity _ | S754_nan => None
  end.

(** [a[k]] for a Number [k]: the element at an integer index inside
    the array, and [undefined] (here [None]) for every other key. *)
Definition array_get {A : Type} (a : list A) (k : option Z) : option A :=
  match k with
  | Some i => if 0 <=? i then nth_error a (Z.to_nat i) else None
  | None => None
  end.

(** ** The draw *)

(** The closure of the callback that [handleDraw] hands to
    [setInterval]: the [players] of the render in which [handleDraw] ran
    and the local [startTime]. *)
Record SpinClosure := mkSpin {
  spin_players : list Player.t;
  spin_startTime : Z
}.

(** The component together with the browser's timers.  The id of an
    interval is its position in [intervals]; a cleared interval leaves
    [None] behind.  [timeouts] holds the due times of the pending
    [setTimeout(() => setShowConfetti(false), 7000)]. *)
Record World := mkWorld {
  ui : State;
  intervals : list (option SpinClosure);
  timeouts : list Z
}.

(** The page at its first render, before the mount effect has run. *)
Definition initialWorld : World := mkWorld initialState [] [].

(** A handler that only touches the hooks, run in a world. *)
Definition onUi (f : State -> State) (w : World) : World :=
  mkWorld (f (ui w)) (intervals w) (timeouts w).

Definition spinDuration : Z := 4000.

Fixpoint clearInterval (i : nat) (l : list (option SpinClosure))
  : list (option SpinClosure) :=
  match l, i with
  | [], _ => []
  | _ :: r, O => None :: r
  | x :: r, S j => x :: clearInterval j r
  end.

(** [handleDraw]; [now] is the value of [Date.now()] stored in
    [startTime]. *)
Definition handleDraw (now : Z) (w : World) : World :=
  let s := ui w in
  if (List.length (players s) =? 0)%nat then w
  else
    mkWorld
      (setShowWinnerPopup false
         (setShowConfetti false (setWinner None (setIsDrawing true s))))
      (intervals w ++ [Some (mkSpin (players s) now)])
      (timeouts w).

(** The update of the pool at the end of a draw:
    [setPlayers([])] in Dashboard.tsx, and
    [setPlayers((prev) => prev.filter((p) => p.id !== newWinner.id))]
    in the other variant. *)
Definition postDrawPlayers (v : Variant) (newWinner : Player.t)
  (prev : list Player.t) : list Player.t :=
  match v with
  | DashboardTsx => []
  | Part000 => filter (fun p => negb (Player.id p =? Player.id newWinner)) prev
  end.

(** [Math.floor(Math.random() * players.length)] with the captured
    [players]. *)
Definition randomIndex (rnd : spec_float) (captured : list Player.t) : option Z :=
  Math_floor (Number_mul rnd (Number_of_length (List.length captured))).

(** One run of the callback of interval [i].  [now] is [Date.now()],
    [rnd] is [Math.random()], [date] is [new Date().toLocaleString()].
    The result is [None] when [players[randomIndex]] is [undefined]:
    nothing after that line is meaningful for a winner that does not
    exist (the second variant reads [newWinner.id] and raises). *)
Definition spinInterval (v : Variant) (i : nat) (now : Z)
  (rnd : spec_float) (date : jsstring) (w : World) : option World :=
  match nth_error (intervals w) i with
  | Some (Some cl) =>
      let elapsed := now - spin_startTime cl in
      if spinDuration <=? elapsed then
        match array_get (spin_players cl) (randomIndex rnd (spin_players cl)) with
        | Some newWinner =>
            let s := ui w in
            let s := setWinner (Some newWinner) s in
            let s := setIsDrawing false s in
            let s := setShowConfetti true s in
            let s := setShowWinnerPopup true s in
            let s := setWinnersHistory
                       (spread_with_date newWinner date :: winnersHistory s) s in
            let s := setPlayers (postDrawPlayers v newWinner (players s)) s in
            Some (mkWorld s (clearInterval i (intervals w))
                          (timeouts w ++ [now + 7000]))
        | None => None
        end
      else Some w
  | _ => Some w
  end.

(** The button "Draw Winner" carries
    [disabled={players.length === 0 || isDrawing}]; a disabled button
    delivers no click. *)
Definition drawButton_disabled (s : State) : bool :=
  (List.length (players s) =? 0)%nat || isDrawing s.

Definition click_drawButton (now : Z) (w : World) : World :=
  if drawButton_disabled (ui w) then w else handleDraw now w.

Fixpoint remove_nth {A : Type} (k : nat) (l : list A) : list A :=
  match l, k with
  | [], _ => []
  | _ :: r, O => r
  | x :: r, S j => x :: remove_nth j r
  end.

(** What can happen to the page. *)
Inductive Event :=
| ChangeName (v : jsstring)
| ChangeNumber (v : jsstring)
| KeyDown (key : jsstring) (now : Z)
| ClickRegister (now : Z)
| ClickClearAll
| ClickRemove (id : Z)
| ClickDraw (now : Z)
| IntervalFires (i : nat) (now : Z) (rnd : spec_float) (date : jsstring)
| ConfettiTimeoutFires (k : nat)
| ClickClosePopup
| ClickCelebrate
| ClickClearHistory.

Definition step (v : Variant) (e : Event) (w : World) : option World :=
  match e with
  | ChangeName x => Some (onUi (setName x) w)
  | ChangeNumber x => Some (onUi (setNumber x) w)
  | KeyDown key now => Some (onUi (handleKeyPress key now) w)
  | ClickRegister now => Some (onUi (handleRegister now) w)
  | ClickClearAll => Some (onUi clearAllPlayers w)
  | ClickRemove id => Some (onUi (removePlayer id) w)
  | ClickDraw now => Some (click_drawButton now w)
  | IntervalFires i now rnd date => spinInterval v i now rnd date w
  | ConfettiTimeoutFires k =>
      match nth_error (timeouts w) k with
      | Some _ => Some (mkWorld (setShowConfetti false (ui w)) (intervals w)
                                (remove_nth k (timeouts w)))
      | None => Some w
      end
  | ClickClosePopup => Some (onUi closeWinnerPopup w)
  | ClickCelebrate => Some (onUi (setShowConfetti true) w)
  | ClickClearHistory => Some (onUi clearHistory w)
  end.

Fixpoint run (v : Variant) (es : list Event) (w : World) : option World :=
  match es with
  | [] => Some w
  | e :: r => match step v e w with
              | Some w' => run v r w'
              | None => None
              end
  end.

(** ** Loading from [localStorage] *)

(** How an evaluation ends: with a value, or by throwing. *)
Inductive Error := SyntaxError | TypeError.

Inductive completion (A : Type) :=
| Normal (a : A)
| Throw (e : Error).
Arguments Normal {A} a.
Arguments Throw {A} e.

(** The values [JSON.parse] produces.  A number keeps the text of its
    literal; an object keeps its members in the order of the text. *)
#[warnings="-register-all"]
Inductive JSON :=
| JNull
| JBool (b : bool)
| JNumber (literal : jsstring)
| JString (s : jsstring)
| JArray (elements : list JSON)
| JObject (members : list (jsstring * JSON)).

(** [JSON.parse] follows the JSON grammar of ECMA-404: white space is
    tab, line feed, carriage return and space. *)
Definition is_json_ws (c : code_unit) : bool :=
  (c =? 9) || (c =? 10) || (c =? 13) || (c =? 32).

Fixpoint skip_ws (s : jsstring) : jsstring :=
  match s with
  | c :: r => if is_json_ws c then skip_ws r else s
  | [] => []
  end.

Definition is_digit (c : code_unit) : bool := (48 <=? c) && (c <=? 57).

Definition hex_digit (c : code_unit) : option Z :=
  if is_digit c then Some (c - 48)
  else if (65 <=? c) && (c <=? 70) then Some (c - 55)
  else if (97 <=? c) && (c <=? 102) then Some (c - 87)
  else None.

(** The character a one-letter escape stands for. *)
Definition unescape (c : code_unit) : option code_unit :=
  if c =? 34 then Some 34            (* quote *)
  else if c =? 92 then Some 92       (* backslash *)
  else if c =? 47 then Some 47       (* slash *)
  else if c =? 98 then Some 8        (* backspace *)
  else if c =? 102 then Some 12      (* form feed *)
  else if c =? 110 then Some 10      (* line feed *)
  else if c =? 114 then Some 13      (* carriage return *)
  else if c =? 116 then Some 9       (* tab *)
  else None.

Definition cons_fst {A B : Type} (a : A) (x : option (list A * B))
  : option (list A * B) :=
  match x with
  | Some (l, b) => Some (a :: l, b)
  | None => None
  end.

(** The characters of a string literal after its opening quote, and the
    text after the closing quote. *)
Fixpoint scan_string (s : jsstring) : option (jsstring * jsstring) :=
  match s with
  | [] => None
  | c :: r =>
      if c =? 34 then Some ([], r)
      else if c =? 92 then
        match r with
        | [] => None
        | e :: r1 =>
            if e =? 117 then
              match r1 with
              | h1 :: h2 :: h3 :: h4 :: r2 =>
                  match hex_digit h1, hex_digit h2, hex_digit h3, hex_digit h4 with
                  | Some a, Some b, Some c', Some d =>
                      cons_fst (((a * 16 + b) * 16 + c') * 16 + d) (scan_string r2)
                  | _, _, _, _ => None
                  end
              | _ => None
              end
            else
              match unescape e with
              | Some u => cons_fst u (scan_string r1)
              | None => None
              end
        end
      else if c <? 32 then None
      else cons_fst c (scan_string r)
  end.

Fixpoint span_digits (s : jsstring) : jsstring * jsstring :=
  match s with
  | c :: r =>
      if is_digit c then let (d, r') := span_digits r in (c :: d, r')
      else ([], s)
  | [] => ([], [])
  end.

(** The integer part of a number: an optional minus sign, then a
    single 0 or a non-zero digit followed by digits. *)
Definition scan_int (s : jsstring) : option (jsstring * jsstring) :=
  let (sign, s1) :=
    match s with
    | c :: r => if c =? 45 then ([c], r) else ([], s)
    | [] => ([], s)
    end in
  match s1 with
  | c :: r =>
      if c =? 48 then Some (sign ++ [c], r)
      else if is_digit c then
        let (d, r') := span_digits r in Some (sign ++ c :: d, r')
      else None
  | [] => None
  end.

(** The optional fraction: a point and at least one digit. *)
Definition scan_frac (s : jsstring) : option (jsstring * jsstring) :=
  match s with
  | c :: r =>
      if c =? 46 then
        match span_digits r with
        | ([], _) => None
        | (d, r') => Some (c :: d, r')
        end
      else Some ([], s)
  | [] => Some ([], s)
  end.

(** The optional exponent: e or E, an optional sign, at least one
    digit. *)
Definition scan_exp (s : jsstring) : option (jsstring * jsstring) :=
  match s with
  | c :: r =>
      if (c =? 101) || (c =? 69) then
        let (sign, r1) :=
          match r with
          | c1 :: r' => if (c1 =? 43) || (c1 =? 45) then ([c1], r') else ([], r)
          | [] => ([], r)
          end in
        match span_digits r1 with
        | ([], _) => None
        | (d, r') => Some (c :: sign ++ d, r')
        end
      else Some ([], s)
  | [] => Some ([], s)
  end.

Definition scan_number (s : jsstring) : option (jsstring * jsstring) :=
  match scan_int s with
  | Some (i, r1) =>
      match scan_frac r1 with
      | Some (f, r2) =>
          match scan_exp r2 with
          | Some (e, r3) => Some (i ++ f ++ e, r3)
          | None => None
          end
      | None => None
      end
  | None => None
  end.

Fixpoint strip_prefix (p s : jsstring) : option jsstring :=
  match p, s with
  | [], _ => Some s
  | a :: p', b :: s' => if a =? b then strip_prefix p' s' else None
  | _ :: _, [] => None
  end.

(** A value at the head of the text (after white space), and the text
    after it.  Every call consumes fuel; [JSON_parse] supplies enough. *)
Fixpoint parse_value (fuel : nat) (s : jsstring) : option (JSON * jsstring) :=
  match fuel with
  | O => None
  | S f =>
      match skip_ws s with
      | [] => None
      | c :: r =>
          if c =? 34 then
            match scan_string r with
            | Some (str, r') => Some (JString str, r')
            | None => None
            end
          else if c =? 91 then
            match skip_ws r with
            | [] => None
            | c1 :: r1 =>
                if c1 =? 93 then Some (JArray [], r1)
                else match parse_elements f r with
                     | Some (l, r') => Some (JArray l, r')
                     | None => None
                     end
            end
          else if c =? 123 then
            match skip_ws r with
            | [] => None
            | c1 :: r1 =>
                if c1 =? 125 then Some (JObject [], r1)
                else match parse_members f r with
                     | Some (l, r') => Some (JObject l, r')
                     | None => None
                     end
            end
          else
            match strip_prefix (js "null") (c :: r),
                  strip_prefix (js "true") (c :: r),
                  strip_prefix (js "false") (c :: r) with
            | Some r', _, _ => Some (JNull, r')
            | _, Some r', _ => Some (JBool true, r')
            | _, _, Some r' => Some (JBool false, r')
            | None, None, None =>
                match scan_number (c :: r) with
                | Some (n, r') => Some (JNumber n, r')
                | None => None
                end
            end
      end
  end

with parse_elements (fuel : nat) (s : jsstring) : option (list JSON * jsstring) :=
  match fuel with
  | O => None
  | S f =>
      match parse_value f s with
      | Some (v, r) =>
          match skip_ws r with
          | [] => None
          | c :: r1 =>
              if c =? 44 then cons_fst v (parse_elements f r1)
              else if c =? 93 then Some ([v], r1)
              else None
          end
      | None => None
      end
  end

with parse_members (fuel : nat) (s : jsstring)
  : option (list (jsstring * JSON) * jsstring) :=
  match fuel with
  | O => None
  | S f =>
      match skip_ws s with
      | [] => None
      | q :: r0 =>
          if q =? 34 then
            match scan_string r0 with
            | Some (key, r) =>
                match skip_ws r with
                | [] => None
                | colon :: r1 =>
                    if colon =? 58 then
                      match parse_value f r1 with
                      | Some (v, r2) =>
                          match skip_ws r2 with
                          | [] => None
                          | c :: r3 =>
                              if c =? 44 then cons_fst (key, v) (parse_members f r3)
                              else if c =? 125 then Some ([(key, v)], r3)
                              else None
                          end
                      | None => None
                      end
                    else None
                end
            | None => None
            end
          else None
      end
  end.

(** [JSON.parse(text)]: one value, white space around it, nothing
    else; a [SyntaxError] otherwise. *)
Definition JSON_parse (text : jsstring) : completion JSON :=
  match parse_value (2 * List.length text + 2) text with
  | Some (v, r) =>
      match skip_ws r with
      | [] => Normal v
      | _ :: _ => Throw SyntaxError
      end
  | None => Throw SyntaxError
  end.

(** The two slots of [localStorage] the component uses; [None] is a
    key that is not there ([getItem] returns [null]). *)
Record Storage := mkStorage {
  lotteryPlayers : option jsstring;
  lotteryWinners : option jsstring
}.

(** [localStorage.getItem(key) || "[]"] *)
Definition getItem_or (slot : option jsstring) (default : jsstring) : jsstring :=
  match slot with
  | Some s => if truthy s then s else default
  | None => default
  end.

(** The body of the mount effect up to its two setters: the values of
    [savedPlayers] and [savedWinners]. *)
Definition load (st : Storage) : completion (JSON * JSON) :=
  match JSON_parse (getItem_or (lotteryPlayers st) (js "[]")) with
  | Throw e => Throw e
  | Normal savedPlayers =>
      match JSON_parse (getItem_or (lotteryWinners st) (js "[]")) with
      | Throw e => Throw e
      | Normal savedWinners => Normal (savedPlayers, savedWinners)
      end
  end.

(** ** Auxiliary notions *)

(** A slot of the timer table either keeps its closure or is cleared;
    a cleared slot stays cleared. *)
Definition slot_evolves (x x' : option SpinClosure) : Prop :=
  x' = x \/ x' = None.

(** ** Sample data used by the examples below *)

Definition alice : Player.t := Player.mk (js "Alice") (js "123") 1000.
Definition bob : Player.t := Player.mk (js "Bob") (js "456") 2000.
Definition carol : Player.t := Player.mk (js "Carol") (js "789") 3000.

Definition sampleDate : jsstring := js "11/2/2026, 10:00:00 AM".

(** The page after Alice (at time 1000, with the button) and Bob (at
    time 2000, with the Enter key) have registered. *)
Definition registerAliceAndBob : list Event :=
  [ ChangeName (js "  Alice "); ChangeNumber (js "123"); ClickRegister 1000;
    ChangeName (js "Bob"); ChangeNumber (js " 456"); KeyDown (js "Enter") 2000 ].

(** The largest Number below 1. *)
Definition almostOne : spec_float := S754_finite false 9007199254740991 (-53).


(** A world with one entrant in the pool. *)
Definition worldWith (pool : list Player.t) : World :=
  mkWorld (setPlayers pool initialState) [] [].

(** ** Saving to [localStorage]

    The two save effects write [JSON.stringify(players)] and
    [JSON.stringify(winnersHistory)].  [JSON.stringify] is modelled on the
    values the component holds: arrays of objects whose properties are
    strings and an integer number. *)

(** The lower-case hexadecimal digit for a value below 16. *)
Definition hex_char (d : Z) : code_unit := if d <? 10 then 48 + d else 87 + d.

(** The six-character escape of a code unit: a backslash, the letter u
    and four hexadecimal digits. *)
Definition unicode_escape (c : code_unit) : jsstring :=
  [92; 117; hex_char (c / 4096); hex_char ((c / 256) mod 16);
   hex_char ((c / 16) mod 16); hex_char (c mod 16)].

Definition is_high_surrogate (c : code_unit) : bool :=
  (55296 <=? c) && (c <=? 56319).
Definition is_low_surrogate (c : code_unit) : bool :=
  (56320 <=? c) && (c <=? 57343).

(** QuoteJSONString on one code unit that is not a surrogate. *)
Definition quote_unit (c : code_unit) : jsstring :=
  if c =? 8 then [92; 98]
  else if c =? 9 then [92; 116]
  else if c =? 10 then [92; 110]
  else if c =? 12 then [92; 102]
  else if c =? 13 then [92; 114]
  else if c =? 34 then [92; 34]
  else if c =? 92 then [92; 92]
  else if c <? 32 then unicode_escape c
  else [c].

(** QuoteJSONString between its two quotes: the string is read by code
    points, a surrogate pair is copied, a lone surrogate is escaped. *)
Fixpoint quote_body (s : jsstring) : jsstring :=
  match s with
  | [] => []
  | c :: r =>
      if is_high_surrogate c then
        match r with
        | d :: r' =>
            if is_low_surrogate d then c :: d :: quote_body r'
            else unicode_escape c ++ quote_body r
        | [] => unicode_escape c
        end
      else if is_low_surrogate c then unicode_escape c ++ quote_body r
      else quote_unit c ++ quote_body r
  end.

Definition QuoteJSONString (s : jsstring) : jsstring :=
  34 :: quote_body s ++ [34].

Fixpoint uint_units (d : Decimal.uint) : jsstring :=
  match d with
  | Decimal.Nil => []
  | Decimal.D0 r => 48 :: uint_units r
  | Decimal.D1 r => 49 :: uint_units r
  | Decimal.D2 r => 50 :: uint_units r
  | Decimal.D3 r => 51 :: uint_units r
  | Decimal.D4 r => 52 :: uint_units r
  | Decimal.D5 r => 53 :: uint_units r
  | Decimal.D6 r => 54 :: uint_units r
  | Decimal.D7 r => 55 :: uint_units r
  | Decimal.D8 r => 56 :: uint_units r
  | Decimal.D9 r => 57 :: uint_units r
  end.

(** Number::toString on an integer of magnitude below 10^21: its
    decimal digits, after a minus sign when it is negative. *)
Definition Number_toString (n : Z) : jsstring :=
  match n with
  | Z0 => [48]
  | Zpos p => uint_units (Pos.to_uint p)
  | Zneg p => 45 :: uint_units (Pos.to_uint p)
  end.

(** A property of an object: the quoted key, a colon, the value. *)
Definition stringify_member (key value : jsstring) : jsstring :=
  QuoteJSONString key ++ 58 :: value.

(** The items of an array or an object, separated by commas. *)
Fixpoint join_commas (items : list jsstring) : jsstring :=
  match items with
  | [] => []
  | [x] => x
  | x :: r => x ++ 44 :: join_commas r
  end.

Definition stringify_object (members : list jsstring) : jsstring :=
  123 :: join_commas members ++ [125].

Definition stringify_array (elements : list jsstring) : jsstring :=
  91 :: join_commas elements ++ [93].

(** [JSON.stringify] of a player: its properties in the order in which
    [handleRegister] creates them. *)
Definition stringify_player (p : Player.t) : jsstring :=
  stringify_object
    [ stringify_member (js "name") (QuoteJSONString (Player.name p));
      stringify_member (js "number") (QuoteJSONString (Player.number p));
      stringify_member (js "id") (Number_toString (Player.id p)) ].

(** [JSON.stringify] of a winner: the properties of the player, then
    [date], the order of [{ ...newWinner, date }]. *)
Definition stringify_winner (r : Winner.t) : jsstring :=
  stringify_object
    [ stringify_member (js "name") (QuoteJSONString (Winner.name r));
      stringify_member (js "number") (QuoteJSONString (Winner.number r));
      stringify_member (js "id") (Number_toString (Winner.id r));
      stringify_member (js "date") (QuoteJSONString (Winner.date r)) ].

Definition stringify_players (l : list Player.t) : jsstring :=
  stringify_array (map stringify_player l).

Definition stringify_winners (l : list Winner.t) : jsstring :=
  stringify_array (map stringify_winner l).

(** The two save effects, after a render with state [s]. *)
Definition saveEffects (s : State) (st : Storage) : Storage :=
  mkStorage (Some (stringify_players (players s)))
            (Some (stringify_winners (winnersHistory s))).

(** *** Reading a loaded value as the component does

    [setPlayers(savedPlayers)] stores what [JSON.parse] returned; the
    component then reads the properties [name], [number] and [id] (and
    [date]) of its elements.  The functions below read a parsed value that
    way. *)

(** The value of a property: in an object with a repeated key the last
    occurrence counts. *)
Fixpoint get_member (key : jsstring) (members : list (jsstring * JSON))
  : option JSON :=
  match members with
  | [] => None
  | (k, v) :: r =>
      match get_member key r with
      | Some v' => Some v'
      | None => if list_eq_dec Z.eq_dec k key then Some v else None
      end
  end.

Definition as_string (v : option JSON) : option jsstring :=
  match v with
  | Some (JString s) => Some s
  | _ => None
  end.

Definition digit_uint (c : code_unit) (d : Decimal.uint) : option Decimal.uint :=
  if c =? 48 then Some (Decimal.D0 d)
  else if c =? 49 then Some (Decimal.D1 d)
  else if c =? 50 then Some (Decimal.D2 d)
  else if c =? 51 then Some (Decimal.D3 d)
  else if c =? 52 then Some (Decimal.D4 d)
  else if c =? 53 then Some (Decimal.D5 d)
  else if c =? 54 then Some (Decimal.D6 d)
  else if c =? 55 then Some (Decimal.D7 d)
  else if c =? 56 then Some (Decimal.D8 d)
  else if c =? 57 then Some (Decimal.D9 d)
  else None.

Fixpoint units_uint (s : jsstring) : option Decimal.uint :=
  match s with
  | [] => Some Decimal.Nil
  | c :: r =>
      match units_uint r with
      | Some d => digit_uint c d
      | None => None
      end
  end.

(** The integer a number literal without fraction and exponent
    denotes. *)
Definition integer_of_literal (lit : jsstring) : option Z :=
  match lit with
  | [] => None
  | c :: r =>
      if c =? 45 then
        match r with
        | [] => None
        | _ :: _ => option_map (fun d => - Z.of_uint d) (units_uint r)
        end
      else option_map Z.of_uint (units_uint lit)
  end.

Definition as_integer (v : option JSON) : option Z :=
  match v with
  | Some (JNumber lit) => integer_of_literal lit
  | _ => None
  end.

Definition Player_of_JSON (v : JSON) : option Player.t :=
  match v with
  | JObject m =>
      match as_string (get_member (js "name") m),
            as_string (get_member (js "number") m),
            as_integer (get_member (js "id") m) with
      | Some n, Some k, Some i => Some (Player.mk n k i)
      | _, _, _ => None
      end
  | _ => None
  end.

Definition Winner_of_JSON (v : JSON) : option Winner.t :=
  match v with
  | JObject m =>
      match as_string (get_member (js "name") m),
            as_string (get_member (js "number") m),
            as_integer (get_member (js "id") m),
            as_string (get_member (js "date") m) with
      | Some n, Some k, Some i, Some d => Some (Winner.mk n k i d)
      | _, _, _, _ => None
      end
  | _ => None
  end.

Fixpoint all_some {A B : Type} (f : A -> option B) (l : list A) : option (list B) :=
  match l with
  | [] => Some []
  | x :: r =>
      match f x, all_some f r with
      | Some y, Some ys => Some (y :: ys)
      | _, _ => None
      end
  end.

Definition players_of_JSON (v : JSON) : option (list Player.t) :=
  match v with
  | JArray l => all_some Player_of_JSON l
  | _ => None
  end.

Definition winners_of_JSON (v : JSON) : option (list Winner.t) :=
  match v with
  | JArray l => all_some Winner_of_JSON l
  | _ => None
  end.

(** A JavaScript string holds 16-bit code units. *)
Definition valid_string (s : jsstring) : Prop :=
  Forall (fun c => 0 <= c < 65536) s.

(** What the component can hold: strings of code units and an id that
    is an integer double, printed without exponent. *)
Definition storable_player (p : Player.t) : Prop :=
  valid_string (Player.name p) /\ valid_string (Player.number p) /\
  Z.abs (Player.id p) < 2 ^ 53.

Definition storable_winner (r : Winner.t) : Prop :=
  valid_string (Winner.name r) /\ valid_string (Winner.number r) /\
  Z.abs (Winner.id r) < 2 ^ 53 /\ valid_string (Winner.date r).

(** The JSON values of a player and of a winner. *)
Definition Player_toJSON (p : Player.t) : JSON :=
  JObject [ (js "name", JString (Player.name p));
            (js "number", JString (Player.number p));
            (js "id", JNumber (Number_toString (Player.id p))) ].

Definition Winner_toJSON (r : Winner.t) : JSON :=
  JObject [ (js "name", JString (Winner.name r));
            (js "number", JString (Winner.number r));
            (js "id", JNumber (Number_toString (Winner.id r)));
            (js "date", JString (Winner.date r)) ].

(** The text after a run of digits does not go on with a digit. *)
Definition no_digit_head (s : jsstring) : Prop :=
  match s with
  | [] => True
  | c :: _ => is_digit c = false
  end.

(** ** The mount effect

    After the two reads, the effect runs [setPlayers(savedPlayers)] and
    [setWinnersHistory(savedWinners)] on the state of the first render.
    The state of the component holds a [Player[]] and a [Winner[]]:
    [None] stands for loaded values that are not such arrays (the text
    [null], say), which the component stores all the same but cannot
    work with. *)
Definition mount (st : Storage) : completion (option World) :=
  match load st with
  | Throw e => Throw e
  | Normal (savedPlayers, savedWinners) =>
      Normal
        match players_of_JSON savedPlayers, winners_of_JSON savedWinners with
        | Some pool, Some history =>
            Some (mkWorld (setWinnersHistory history (setPlayers pool initialState))
                          [] [])
        | _, _ => None
        end
  end.



(** A storage left by an earlier session: Alice and Bob in the pool,
    Carol in the history. *)
Definition carolRecord : Winner.t := spread_with_date carol sampleDate.

Definition storedAliceAndBob : Storage :=
  mkStorage (Some (stringify_players [alice; bob]))
            (Some (stringify_winners [carolRecord])).

Definition mountedAliceAndBob : World :=
  mkWorld (setWinnersHistory [carolRecord] (setPlayers [alice; bob] initialState))
          [] [].

(** ** Invariants of the page *)

(** A string that neither starts nor ends with white space and is not
    empty: what [trim] leaves of an accepted input. *)
Definition trimmed_nonempty (s : jsstring) : Prop := s <> [] /\ trim s = s.

Definition entrant_ok (p : Player.t) : Prop :=
  trimmed_nonempty (Player.name p) /\ trimmed_nonempty (Player.number p).

Definition record_ok (r : Winner.t) : Prop :=
  trimmed_nonempty (Winner.name r) /\ trimmed_nonempty (Winner.number r).

(** Every entrant the page knows of (in the pool, captured by a running
    draw, shown as the winner or recorded in the history) has a non-empty
    trimmed name and number. *)
Definition fields_ok (w : World) : Prop :=
  Forall entrant_ok (players (ui w)) /\
  (forall i cl, nth_error (intervals w) i = Some (Some cl) ->
                Forall entrant_ok (spin_players cl)) /\
  (forall p, winner (ui w) = Some p -> entrant_ok p) /\
  Forall record_ok (winnersHistory (ui w)).

(** The number of intervals that have not been cleared. *)
Fixpoint live_intervals (l : list (option SpinClosure)) : nat :=
  match l with
  | [] => 0
  | Some _ :: r => S (live_intervals r)
  | None :: r => live_intervals r
  end.

(** The engine and the timers agree: one running interval while
    [isDrawing] holds and none otherwise, and a running interval has
    captured a pool that is not empty. *)
Definition timers_ok (w : World) : Prop :=
  live_intervals (intervals w) = (if isDrawing (ui w) then 1 else 0)%nat /\
  (forall i cl, nth_error (intervals w) i = Some (Some cl) ->
                spin_players cl <> []).

(** The random values of an event are ones [Math.random()] can return. *)
Definition event_random_ok (e : Event) : Prop :=
  match e with
  | IntervalFires _ _ rnd _ => is_random_value rnd = true
  | _ => True
  end.

(** The first code unit of a string, if any, is not white space. *)
Definition no_ws_head (s : jsstring) : Prop :=
  match s with
  | [] => True
  | c :: _ => is_white_space c = false
  end.

(** * Properties *)

(** ** Binary64 rounding

    The product of a value below 1 and an array length, rounded to
    nearest even, stays below the length: the lemmas follow the steps of
    [binary_round_aux]. *)

Lemma digits2_pos_size (m : positive) : digits2_pos m = Pos.size m.
Proof. induction m; simpl; congruence. Qed.

Lemma digits2_pos_bounds (m : positive) :
  2 ^ (Zpos (digits2_pos m) - 1) <= Zpos m < 2 ^ Zpos (digits2_pos m).
Proof.
  rewrite digits2_pos_size. split.
  - pose proof (Pos.size_le m) as H.
    assert (Hz : Zpos (2 ^ Pos.size m) <= Zpos m~0) by exact H.
    rewrite Pos2Z.inj_pow in Hz.
    replace (Zpos (Pos.size m)) with (Z.succ (Zpos (Pos.size m) - 1)) in Hz by lia.
    rewrite Z.pow_succ_r in Hz by lia. lia.
  - pose proof (Pos.size_gt m) as H.
    assert (Hz : Zpos m < Zpos (2 ^ Pos.size m)) by exact H.
    now rewrite Pos2Z.inj_pow in Hz.
Qed.

Lemma iter_pos_nat {A} (f : A -> A) (p : positive) (x : A) :
  iter_pos f p x = Nat.iter (Pos.to_nat p) f x.
Proof.
  revert x. induction p as [p IH | p IH |]; intros x; cbn [iter_pos].
  - rewrite !IH. rewrite Pos2Nat.inj_xI.
    replace (S (2 * Pos.to_nat p))%nat with (Pos.to_nat p + (Pos.to_nat p + 1))%nat by lia.
    rewrite !Nat.iter_add. simpl. reflexivity.
  - rewrite !IH. rewrite Pos2Nat.inj_xO.
    replace (2 * Pos.to_nat p)%nat with (Pos.to_nat p + Pos.to_nat p)%nat by lia.
    now rewrite Nat.iter_add.
  - reflexivity.
Qed.

Lemma shr_1_spec (mrs : shr_record) :
  0 <= shr_m mrs ->
  shr_m (shr_1 mrs) = shr_m mrs / 2 /\ shr_r (shr_1 mrs) = Z.odd (shr_m mrs).
Proof.
  destruct mrs as [m r s]; cbn [shr_m]. intros Hm.
  destruct m as [| [p | p |] | p]; cbn [shr_1 shr_m shr_r]; try lia;
    split; try reflexivity.
  - apply Z.div_unique with (r := 1); lia.
  - apply Z.div_unique with (r := 0); lia.
Qed.

Lemma shr_iter_spec (m : Z) (j : nat) :
  0 <= m ->
  let mrs := Nat.iter j shr_1 (Build_shr_record m false false) in
  shr_m mrs = m / 2 ^ Z.of_nat j /\
  (shr_r mrs = true -> 2 ^ (Z.of_nat j - 1) <= m mod 2 ^ Z.of_nat j).
Proof.
  intros Hm. induction j as [| j IH].
  - simpl. split; [now rewrite Z.div_1_r | discriminate].
  - cbn zeta in *. rewrite Nat.iter_succ.
    set (mrs := Nat.iter j shr_1 _) in *.
    destruct IH as [IHm IHr].
    assert (Hpos : 0 < 2 ^ Z.of_nat j) by (apply Z.pow_pos_nonneg; lia).
    assert (H0 : 0 <= shr_m mrs) by (rewrite IHm; apply Z.div_pos; lia).
    destruct (shr_1_spec mrs H0) as [E1 E2].
    rewrite Nat2Z.inj_succ, Z.pow_succ_r by lia.
    split.
    + rewrite E1, IHm, Z.div_div by lia. f_equal. lia.
    + rewrite E2, IHm. intros Hodd.
      replace (Z.succ (Z.of_nat j) - 1) with (Z.of_nat j) by lia.
      rewrite (Z.mul_comm 2), Z.rem_mul_r by lia.
      pose proof (Zmod_odd (m / 2 ^ Z.of_nat j)) as Hmod. rewrite Hodd in Hmod.
      pose proof (Z.mod_pos_bound m (2 ^ Z.of_nat j) Hpos). nia.
Qed.

Lemma shr_exact_spec (m e n : Z) :
  0 <= m ->
  let res := shr (Build_shr_record m false false) e n in
  snd res = e + Z.max n 0 /\
  shr_m (fst res) = m / 2 ^ Z.max n 0 /\
  (shr_r (fst res) = true -> 0 < n /\ 2 ^ (n - 1) <= m mod 2 ^ n).
Proof.
  intros Hm. destruct n as [| p | p]; cbn [shr fst snd shr_m shr_r].
  - rewrite Z.div_1_r. repeat split; try lia; discriminate.
  - rewrite iter_pos_nat.
    destruct (shr_iter_spec m (Pos.to_nat p) Hm) as [E1 E2].
    rewrite positive_nat_Z in E1, E2.
    replace (Z.max (Z.pos p) 0) with (Z.pos p) by lia.
    repeat split; try lia; auto.
  - replace (Z.max (Z.neg p) 0) with 0 by lia. rewrite Z.div_1_r.
    repeat split; try lia; discriminate.
Qed.

Lemma round_nearest_even_cases (mrs : shr_record) :
  let m2 := round_nearest_even (shr_m mrs) (loc_of_shr_record mrs) in
  m2 = shr_m mrs \/ (m2 = shr_m mrs + 1 /\ shr_r mrs = true).
Proof.
  destruct mrs as [m [|] [|]]; cbn; auto.
  destruct (Z.even m); auto.
Qed.

Lemma Zdigits2_le (m k : Z) : 0 <= m -> 0 <= k -> m < 2 ^ k -> Zdigits2 m <= k.
Proof.
  intros Hm Hk Hlt. destruct m as [| p | p]; cbn [Zdigits2]; try lia.
  pose proof (digits2_pos_bounds p) as [Hlo _].
  assert (2 ^ (Z.pos (digits2_pos p) - 1) < 2 ^ k) by lia.
  apply Z.pow_lt_mono_r_iff in H; lia.
Qed.

Lemma binary_round_aux_floor (M : positive) (L n : Z) :
  0 <= L -> 0 < n <= 2 ^ 53 ->
  Zpos M < n * 2 ^ L ->
  (forall n1, n1 = fexp prec emax (Zdigits2 (Zpos M) + - L) - - L ->
     0 < n1 -> 2 ^ (n1 - 1) <= Zpos M mod 2 ^ n1 ->
     (Zpos M / 2 ^ n1 + 1) * 2 ^ n1 < n * 2 ^ L) ->
  exists k,
    Math_floor (binary_round_aux prec emax false (Zpos M) (- L) loc_Exact) = Some k /\
    0 <= k < n.
Proof.
  intros HL Hn HM Hup.
  unfold binary_round_aux, shr_fexp. cbn [shr_record_of_loc].
  set (raw1 := fexp prec emax (Zdigits2 (Zpos M) + - L) - - L) in *.
  pose proof (shr_exact_spec (Zpos M) (- L) raw1 ltac:(lia)) as S1.
  destruct (shr {| shr_m := Z.pos M; shr_r := false; shr_s := false |} (- L) raw1)
    as [mrs1 e1]. cbn [fst snd] in S1. destruct S1 as (Ee1 & Em1 & Er1).
  set (n1 := Z.max raw1 0) in *.
  set (m2 := round_nearest_even (shr_m mrs1) (loc_of_shr_record mrs1)).
  assert (Hpow1 : 0 < 2 ^ n1) by (apply Z.pow_pos_nonneg; lia).
  assert (Hm1 : 0 <= shr_m mrs1) by (rewrite Em1; apply Z.div_pos; lia).
  assert (Hm1le : shr_m mrs1 * 2 ^ n1 <= Zpos M).
  { rewrite Em1. pose proof (Z.mul_div_le (Zpos M) (2 ^ n1) Hpow1). lia. }
  assert (Hm2 : 0 <= m2 /\ m2 * 2 ^ n1 < n * 2 ^ L).
  { destruct (round_nearest_even_cases mrs1) as [E | [E Hr]]; fold m2 in E;
      rewrite E.
    - lia.
    - split; [lia|]. destruct (Er1 Hr) as [Hpos Hrem].
      assert (n1 = raw1) by lia. rewrite Em1, H.
      apply Hup; auto. }
  destruct Hm2 as [Hm2 Hm2lt].
  set (raw2 := fexp prec emax (Zdigits2 m2 + e1) - e1).
  pose proof (shr_exact_spec m2 e1 raw2 Hm2) as S2.
  destruct (shr {| shr_m := m2; shr_r := false; shr_s := false |} e1 raw2)
    as [mrs2 e2]. cbn [fst snd] in S2. destruct S2 as (Ee2 & Em2 & _).
  set (n2 := Z.max raw2 0) in *.
  assert (Hpow2 : 0 < 2 ^ n2) by (apply Z.pow_pos_nonneg; lia).
  assert (Hm3le : shr_m mrs2 * 2 ^ n2 <= m2).
  { rewrite Em2. pose proof (Z.mul_div_le m2 (2 ^ n2) Hpow2). lia. }
  assert (Hm3 : 0 <= shr_m mrs2) by (rewrite Em2; apply Z.div_pos; lia).
  (* exponents *)
  assert (HpowL : 0 < 2 ^ L) by (apply Z.pow_pos_nonneg; lia).
  assert (Hbig : n * 2 ^ L <= 2 ^ (53 + L)).
  { rewrite Z.pow_add_r by lia. apply Z.mul_le_mono_nonneg_r; lia. }
  assert (HdM : Zdigits2 (Zpos M) <= 53 + L) by (apply Zdigits2_le; lia).
  assert (He1 : e1 <= 0).
  { subst e1 n1 raw1. unfold fexp, SpecFloat.emin, prec, emax in *. lia. }
  assert (He1L : e1 + L = n1) by lia.
  assert (Hd2 : Zdigits2 m2 <= 53 - e1).
  { apply Zdigits2_le; try lia.
    replace (53 - e1) with ((53 + L) - n1) by lia.
    assert (m2 * 2 ^ n1 < 2 ^ (53 + L - n1) * 2 ^ n1).
    { rewrite <- Z.pow_add_r by lia. replace (53 + L - n1 + n1) with (53 + L) by lia. lia. }
    nia. }
  assert (He2 : e2 <= 0).
  { subst e2 n2 raw2. unfold fexp, SpecFloat.emin, prec, emax in *. lia. }
  assert (Hfin : shr_m mrs2 * 2 ^ (n1 + n2) < n * 2 ^ (- e2) * 2 ^ (n1 + n2)).
  { rewrite <- Z.mul_assoc, <- (Z.pow_add_r 2 (- e2)) by lia.
    replace (- e2 + (n1 + n2)) with L by lia.
    rewrite Z.pow_add_r by lia. nia. }
  assert (Hpow12 : 0 < 2 ^ (n1 + n2)) by (apply Z.pow_pos_nonneg; lia).
  assert (Hm3lt : shr_m mrs2 < n * 2 ^ (- e2)) by nia.
  destruct (shr_m mrs2) as [| m3 | m3] eqn:Em3; try lia.
  - exists 0. cbn. split; [reflexivity | lia].
  - replace (e2 <=? emax - prec) with true
      by (symmetry; apply Z.leb_le; unfold emax, prec; lia).
    cbn [Math_floor].
    eexists; split; [reflexivity|].
    destruct (Z.leb_spec 0 e2) as [Hge | Hlt].
    + assert (e2 = 0) by lia. subst e2. rewrite H in *. cbn in Hm3lt |- *. lia.
    + assert (Hp : 0 < 2 ^ (- e2)) by (apply Z.pow_pos_nonneg; lia).
      split; [apply Z.div_pos; lia|].
      apply Z.div_lt_upper_bound; lia.
Qed.

Lemma pos_iter_xO (p k : positive) :
  Zpos (Pos.iter xO p k) = Zpos p * 2 ^ Zpos k /\
  Zpos (digits2_pos (Pos.iter xO p k)) = Zpos (digits2_pos p) + Zpos k.
Proof.
  apply Pos.iter_ind with (P := fun k a =>
    Zpos a = Zpos p * 2 ^ Zpos k /\
    Zpos (digits2_pos a) = Zpos (digits2_pos p) + Zpos k).
  - cbn [digits2_pos]. split; lia.
  - intros q a [E1 E2]. cbn [digits2_pos].
    rewrite Pos2Z.inj_succ, Z.pow_succ_r by lia. split; lia.
Qed.

Lemma binary_round_aux_canonical (s : bool) (m : positive) (e : Z) :
  Zpos (digits2_pos m) = 53 -> -1074 <= e <= 971 ->
  binary_round_aux prec emax s (Zpos m) e loc_Exact = S754_finite s m e.
Proof.
  intros Hd He.
  assert (Hf : forall l, shr_fexp prec emax (Zpos m) e l
                         = (shr_record_of_loc (Zpos m) l, e)).
  { intros l. unfold shr_fexp. cbn [Zdigits2]. rewrite Hd.
    replace (fexp prec emax (53 + e) - e) with 0
      by (unfold fexp, SpecFloat.emin, prec, emax; lia).
    reflexivity. }
  unfold binary_round_aux. rewrite Hf. cbn [shr_record_of_loc shr_m loc_of_shr_record round_nearest_even].
  rewrite Hf. cbn [shr_record_of_loc shr_m].
  replace (e <=? emax - prec) with true
    by (symmetry; apply Z.leb_le; unfold emax, prec; lia).
  reflexivity.
Qed.

Lemma Number_of_length_spec (n : nat) :
  (0 < n)%nat -> Z.of_nat n < 2 ^ 53 ->
  exists (mn : positive) (k : Z),
    Number_of_length n = S754_finite false mn (- k) /\
    0 <= k <= 52 /\
    Zpos mn = Z.of_nat n * 2 ^ k /\
    2 ^ 52 <= Zpos mn < 2 ^ 53.
Proof.
  intros Hpos Hlt. unfold Number_of_length.
  destruct (Z.of_nat n) as [| p | p] eqn:En; try lia.
  cbn [binary_normalize]. unfold binary_round.
  pose proof (digits2_pos_bounds p) as [Hlo Hhi].
  set (d := Zpos (digits2_pos p)) in *.
  assert (Hd1 : 1 <= d) by (unfold d; lia).
  assert (Hd : d <= 53).
  { assert (H : 2 ^ (d - 1) < 2 ^ 53) by lia.
    apply Z.pow_lt_mono_r_iff in H; lia. }
  replace (fexp prec emax (d + 0)) with (d - 53)
    by (unfold fexp, SpecFloat.emin, prec, emax; lia).
  unfold shl_align.
  destruct (d - 53 - 0) as [| q | q] eqn:Eq; try lia.
  - assert (d = 53) by lia.
    rewrite binary_round_aux_canonical by (fold d; lia).
    exists p, 0. replace (- 0) with 0 by lia. repeat split; try lia.
    + rewrite H in Hlo. exact Hlo.
  - destruct (pos_iter_xO p q) as [E1 E2]. fold d in E2.
    assert (Hq : Zpos q = 53 - d) by lia.
    rewrite binary_round_aux_canonical by lia.
    exists (Pos.iter xO p q), (Zpos q).
    replace (- Zpos q) with (d - 53) by lia.
    repeat split; try lia.
    + rewrite E1, Hq.
      replace 52 with ((d - 1) + (53 - d)) by lia.
      rewrite Z.pow_add_r by lia.
      apply Z.mul_le_mono_nonneg_r; [apply Z.pow_nonneg|]; lia.
    + rewrite E1, Hq.
      replace 53 with (d + (53 - d)) at 2 by lia.
      rewrite Z.pow_add_r by lia.
      apply Z.mul_lt_mono_pos_r; [apply Z.pow_pos_nonneg|]; lia.
Qed.

Lemma SFone_value : SFone prec emax = S754_finite false 4503599627370496 (-52).
Proof. vm_compute. reflexivity. Qed.

Lemma is_random_value_finite (s : bool) (mr : positive) (er : Z) :
  is_random_value (S754_finite s mr er) = true ->
  s = false /\ Zpos mr < 2 ^ 53 /\ -1074 <= er <= -53.
Proof.
  unfold is_random_value. destruct s; [discriminate|].
  rewrite SFone_value. intros H. apply andb_prop in H. destruct H as [Hv Hlt].
  cbn [valid_binary] in Hv. unfold bounded, canonical_mantissa in Hv.
  apply andb_prop in Hv. destruct Hv as [Hc _]. apply Z.eqb_eq in Hc.
  pose proof (digits2_pos_bounds mr) as [Hlo Hhi].
  set (d := Zpos (digits2_pos mr)) in *.
  assert (Hd1 : 1 <= d) by (unfold d; lia).
  unfold fexp, SpecFloat.emin, prec, emax in Hc.
  assert (Hd : d <= 53) by lia.
  assert (Hmr : Zpos mr < 2 ^ 53).
  { apply Z.lt_le_trans with (2 ^ d); [exact Hhi|].
    apply Z.pow_le_mono_r; lia. }
  split; [reflexivity|]. split; [exact Hmr|].
  assert (Her1 : -1074 <= er) by (clear - Hc; lia).
  split; [exact Her1|].
  unfold SFltb, SFcompare in Hlt.
  destruct (Z.compare_spec er (-52)) as [Heq | Hlt' | Hgt]; try discriminate.
  - assert (d = 53) by (clear - Hc Heq; lia).
    destruct (Pos.compare_cont Eq mr 4503599627370496) eqn:Ecmp; try discriminate.
    rewrite Pos.compare_cont_spec in Ecmp.
    destruct (Pos.compare_spec mr 4503599627370496) as [E | E | E];
      try discriminate.
    rewrite H in Hlo. replace (53 - 1) with 52 in Hlo by reflexivity. apply Pos2Z.pos_lt_pos in E. clear - Hlo E. lia.
  - clear - Hlt'. lia.
Qed.

Lemma round_up_stays_below (mr mn er k n1 : Z) :
  0 < mr < 2 ^ 53 -> 2 ^ 52 <= mn < 2 ^ 53 ->
  -1074 <= er <= -53 -> 0 <= k <= 52 ->
  n1 = fexp prec emax (Zdigits2 (mr * mn) + - (- er + k)) - - (- er + k) ->
  0 < n1 -> 2 ^ (n1 - 1) <= (mr * mn) mod 2 ^ n1 ->
  ((mr * mn) / 2 ^ n1 + 1) * 2 ^ n1 < mn * 2 ^ (- er).
Proof.
  intros Hmr Hmn Her Hk Hn1 Hpos Hrem.
  set (M := mr * mn) in *.
  assert (HM0 : 0 < M) by (unfold M; nia).
  assert (HM : M < 2 ^ 106).
  { change (2 ^ 106) with (2 ^ 53 * 2 ^ 53). unfold M. nia. }
  assert (HdM : Zdigits2 M <= 106) by (apply Zdigits2_le; lia).
  assert (Hn1le : n1 <= 53).
  { rewrite Hn1. unfold fexp, SpecFloat.emin, prec, emax. lia. }
  set (c := - er - n1).
  assert (Hc : 0 <= c) by (unfold c; lia).
  assert (HP : 2 ^ (- er) = 2 ^ c * 2 ^ n1).
  { rewrite <- Z.pow_add_r by lia. f_equal. unfold c. lia. }
  assert (Hp1 : 0 < 2 ^ n1) by (apply Z.pow_pos_nonneg; lia).
  assert (Hpc : 0 < 2 ^ c) by (apply Z.pow_pos_nonneg; lia).
  assert (Hhalf : 2 ^ n1 = 2 * 2 ^ (n1 - 1)).
  { rewrite <- Z.pow_succ_r by lia. f_equal. lia. }
  assert (Hmrlt : mr < 2 ^ (- er)).
  { apply Z.lt_le_trans with (2 ^ 53); [lia|]. apply Z.pow_le_mono_r; lia. }
  pose proof (Z.div_mod M (2 ^ n1) ltac:(lia)) as Hdm.
  pose proof (Z.mod_pos_bound M (2 ^ n1) Hp1) as Hmb.
  set (q1 := M / 2 ^ n1) in *. set (rem := M mod 2 ^ n1) in *.
  set (Q := mn * 2 ^ c).
  assert (HQ : mn * 2 ^ (- er) = Q * 2 ^ n1) by (rewrite HP; unfold Q; ring).
  rewrite HQ.
  assert (HMQ : M < Q * 2 ^ n1).
  { rewrite <- HQ. unfold M. apply Z.mul_lt_mono_pos_r with (p := mn) in Hmrlt; lia. }
  assert (Hq1 : q1 < Q) by nia.
  destruct (Z.eq_dec (q1 + 1) Q) as [Heq | Hne].
  2: { apply Z.mul_lt_mono_pos_r; lia. }
  exfalso.
  (* the gap below the bound is at least mn, so n1 = 53 and mn = 2^52 *)
  assert (Hgap : Q * 2 ^ n1 - M = mn * (2 ^ (- er) - mr)).
  { rewrite <- HQ. unfold M. ring. }
  assert (Hgap2 : Q * 2 ^ n1 - M <= 2 ^ (n1 - 1)).
  { rewrite <- Heq. nia. }
  assert (Hgap3 : mn <= mn * (2 ^ (- er) - mr)) by nia.
  assert (H52 : 2 ^ 52 <= 2 ^ (n1 - 1)) by lia.
  apply Z.pow_le_mono_r_iff in H52; try lia.
  assert (Hn53 : n1 = 53) by lia.
  assert (E52 : 2 ^ (n1 - 1) = 2 ^ 52) by (f_equal; lia).
  assert (Hmn52 : mn = 2 ^ 52) by lia.
  (* then the product is short of 106 digits *)
  assert (HM105 : M < 2 ^ 105).
  { unfold M. rewrite Hmn52. change (2 ^ 105) with (2 ^ 53 * 2 ^ 52).
    apply Z.mul_lt_mono_pos_r; lia. }
  assert (Zdigits2 M <= 105) by (apply Zdigits2_le; lia).
  unfold fexp, SpecFloat.emin, prec, emax in Hn1. clear - Hn1 Hn53 H Her Hk. lia.
Qed.

Lemma randomIndex_bounds (rnd : spec_float) (pl : list Player.t) :
  pl <> [] -> Z.of_nat (List.length pl) < 2 ^ 53 ->
  is_random_value rnd = true ->
  exists k, randomIndex rnd pl = Some k /\ 0 <= k < Z.of_nat (List.length pl).
Proof.
  intros Hne Hlen Hr. unfold randomIndex.
  assert (Hn : (0 < List.length pl)%nat) by (destruct pl; [congruence | cbn; lia]).
  destruct (Number_of_length_spec _ Hn Hlen) as (mn & k & EN & Hk & Emn & Hmn).
  rewrite EN.
  destruct rnd as [s | s | | s mr er]; try discriminate.
  - destruct s; [discriminate|]. exists 0. cbn. split; [reflexivity | lia].
  - destruct (is_random_value_finite _ _ _ Hr) as (-> & Hmr & Her).
    unfold Number_mul. cbn [SFmul xorb].
    replace (er + - k) with (- (- er + k)) by lia.
    rewrite Pos2Z.inj_mul.
    assert (HP : 2 ^ (- er + k) = 2 ^ (- er) * 2 ^ k) by (apply Z.pow_add_r; lia).
    assert (Hmrlt : Zpos mr < 2 ^ (- er)).
    { apply Z.lt_le_trans with (2 ^ 53); [lia|]. apply Z.pow_le_mono_r; lia. }
    rewrite <- Pos2Z.inj_mul.
    apply binary_round_aux_floor.
    + lia.
    + lia.
    + rewrite Pos2Z.inj_mul, HP, Emn.
      assert (0 < Z.of_nat (List.length pl) * 2 ^ k) by lia.
      nia.
    + intros n1 Hn1 Hpos Hrem. rewrite Pos2Z.inj_mul in *.
      replace (Z.of_nat (List.length pl) * 2 ^ (- er + k)) with (Zpos mn * 2 ^ (- er))
        by (rewrite HP, Emn; ring).
      apply (round_up_stays_below (Zpos mr) (Zpos mn) er k n1); auto; lia.
Qed.

(** ** Registration *)

Lemma truthy_false_iff (s : jsstring) : truthy s = false <-> s = [].
Proof. destruct s; cbn; split; congruence. Qed.

Lemma truthy_true_iff (s : jsstring) : truthy s = true <-> s <> [].
Proof. destruct s; cbn; split; congruence. Qed.

Lemma handleRegister_accepts (now : Z) (s : State) :
  trim (name s) <> [] -> trim (number s) <> [] ->
  handleRegister now s =
  setNumber [] (setName [] (setPlayers
    (players s ++ [Player.mk (trim (name s)) (trim (number s)) now]) s)).
Proof.
  intros Hn Hm. unfold handleRegister.
  apply truthy_true_iff in Hn. apply truthy_true_iff in Hm.
  now rewrite Hn, Hm.
Qed.

(** C4: whenever the name or the number is empty after trimming,
    [handleRegister] returns without any update: the state, hence the
    pool and its size, is what it was. *)
Theorem handleRegister_rejects_blank (now : Z) (s : State) :
  trim (name s) = [] \/ trim (number s) = [] ->
  handleRegister now s = s /\
  players (handleRegister now s) = players s /\
  List.length (players (handleRegister now s)) = List.length (players s).
Proof.
  intros H.
  assert (E : handleRegister now s = s).
  { unfold handleRegister.
    destruct H as [H | H]; apply truthy_false_iff in H; rewrite H.
    - reflexivity.
    - now rewrite orb_true_r. }
  now rewrite E.
Qed.

Lemma handleRegister_rejects_blank_witness :
  let s := setNumber (js "123") (setName (js "  ") (setPlayers [alice] initialState)) in
  (trim (name s) = [] \/ trim (number s) = []) /\
  handleRegister 5000 s = s /\
  players (handleRegister 5000 s) = players s /\
  List.length (players (handleRegister 5000 s)) = List.length (players s).
Proof.
  cbv zeta. split.
  - left. reflexivity.
  - apply handleRegister_rejects_blank. left. reflexivity.
Defined.

(** C5, as stated, fails: the id of a new entrant is the clock reading
    [Date.now()], and two registrations that read the same millisecond
    receive the same id. *)
Lemma register_same_millisecond_same_id :
  let s0 := setNumber (js "123") (setName (js "Alice") initialState) in
  let s1 := handleRegister 1000 s0 in
  let s2 := handleRegister 1000 (setNumber (js "456") (setName (js "Bob") s1)) in
  players s2 = [Player.mk (js "Alice") (js "123") 1000;
                Player.mk (js "Bob") (js "456") 1000] /\
  ~ NoDup (map Player.id (players s2)).
Proof.
  cbv zeta. split; [reflexivity|].
  intros H. inversion H as [| x l Hin _]; subst. apply Hin. left. reflexivity.
Qed.

(** C5, amended: two valid registrations in sequence append both
    entrants in that order with trimmed fields; the id of each is the
    clock reading at its registration, so the two ids differ exactly when
    the readings differ, and the ids of the pool stay pairwise distinct
    when they were and the readings differ from them and from each
    other. *)
Theorem register_two_in_sequence (s : State) (n1 m1 n2 m2 : jsstring) (t1 t2 : Z) :
  trim n1 <> [] -> trim m1 <> [] -> trim n2 <> [] -> trim m2 <> [] ->
  let s1 := handleRegister t1 (setNumber m1 (setName n1 s)) in
  let s2 := handleRegister t2 (setNumber m2 (setName n2 s1)) in
  let a := Player.mk (trim n1) (trim m1) t1 in
  let b := Player.mk (trim n2) (trim m2) t2 in
  players s2 = players s ++ [a; b] /\
  (Player.id a <> Player.id b <-> t1 <> t2) /\
  (NoDup (map Player.id (players s)) ->
   ~ In t1 (map Player.id (players s)) ->
   ~ In t2 (map Player.id (players s)) ->
   t1 <> t2 ->
   NoDup (map Player.id (players s2))).
Proof.
  intros H1 H2 H3 H4. cbv zeta.
  rewrite (handleRegister_accepts t1) by assumption.
  rewrite (handleRegister_accepts t2) by assumption.
  cbn [players name number setPlayers setName setNumber Player.id].
  rewrite <- app_assoc. cbn [app].
  split; [reflexivity|]. split; [tauto|].
  intros Hnd Ht1 Ht2 Hne.
  rewrite map_app. cbn [map Player.id].
  apply NoDup_app; [assumption | | ].
  - constructor; [cbn; intuition congruence|].
    constructor; [cbn; tauto | constructor].
  - intros x Hx [E | [E | []]]; subst; contradiction.
Qed.

Lemma register_two_in_sequence_witness :
  let s := setPlayers [carol] initialState in
  let s1 := handleRegister 1000 (setNumber (js "123 ") (setName (js " Alice") s)) in
  let s2 := handleRegister 2000 (setNumber (js "456") (setName (js "Bob") s1)) in
  players s2 = [carol; alice; bob].
Proof.
  cbv zeta.
  refine (proj1 (register_two_in_sequence (setPlayers [carol] initialState)
                   (js " Alice") (js "123 ") (js "Bob") (js "456") 1000 2000
                   _ _ _ _));
    vm_compute; discriminate.
Defined.

(** ** Removal and clearing *)

Lemma filter_id_absent (id : Z) (l : list Player.t) :
  ~ In id (map Player.id l) ->
  filter (fun player => negb (Player.id player =? id)) l = l.
Proof.
  induction l as [| p l IH]; cbn [filter map]; intros H; [reflexivity|].
  destruct (Z.eqb_spec (Player.id p) id) as [E | E]; cbn [negb].
  - exfalso. apply H. left. exact E.
  - f_equal. apply IH. intros Hin. apply H. right. exact Hin.
Qed.

Lemma filter_id_length (id : Z) (l : list Player.t) :
  Nat.add (List.length (filter (fun player => negb (Player.id player =? id)) l))
          (count_occ Z.eq_dec (map Player.id l) id) = List.length l.
Proof.
  induction l as [| p l IH]; cbn [filter map count_occ List.length]; [reflexivity|].
  destruct (Z.eqb_spec (Player.id p) id) as [E | E]; cbn [negb];
    destruct (Z.eq_dec (Player.id p) id) as [E' | E']; try contradiction;
    cbn [List.length]; lia.
Qed.

Lemma filter_id_once (id : Z) (l : list Player.t) :
  count_occ Z.eq_dec (map Player.id l) id = 1%nat ->
  exists l1 p l2,
    l = l1 ++ p :: l2 /\ Player.id p = id /\
    filter (fun player => negb (Player.id player =? id)) l = l1 ++ l2.
Proof.
  induction l as [| q l IH]; cbn [map count_occ filter]; [discriminate|].
  destruct (Z.eq_dec (Player.id q) id) as [E | E]; intros H.
  - exists [], q, l. cbn [app]. repeat split; [exact E|].
    apply Z.eqb_eq in E. rewrite E. cbn [negb].
    apply filter_id_absent. apply (count_occ_not_In Z.eq_dec). lia.
  - destruct (IH H) as (l1 & p & l2 & E1 & E2 & E3).
    exists (q :: l1), p, l2. cbn [app]. repeat split; [congruence | exact E2|].
    apply Z.eqb_neq in E. rewrite E. cbn [negb]. now rewrite E3.
Qed.

Lemma setPlayers_same (s : State) : setPlayers (players s) s = s.
Proof. now destruct s. Qed.

(** C7, as stated, fails on a pool in which an id occurs twice:
    [filter] drops every entrant with that id, so the size falls by
    two. *)
Lemma removePlayer_drops_all_with_id :
  let twin := Player.mk (js "Dave") (js "000") 1000 in
  let s := setPlayers [alice; bob; twin] initialState in
  In 1000 (map Player.id (players s)) /\
  players (removePlayer 1000 s) = [bob] /\
  List.length (players (removePlayer 1000 s)) <> (List.length (players s) - 1)%nat.
Proof.
  cbv zeta. split; [left; reflexivity|]. split; [reflexivity|].
  vm_compute. discriminate.
Qed.

(** C7, amended: removing an id that is not in the pool changes
    nothing; removing an id that occurs exactly once in the pool (as every
    id does when ids are unique) takes that one entrant out, keeps the
    others in their order and lowers the size by exactly one. *)
Theorem removePlayer_absent_or_once (id : Z) (s : State) :
  (~ In id (map Player.id (players s)) -> removePlayer id s = s) /\
  (count_occ Z.eq_dec (map Player.id (players s)) id = 1%nat ->
   exists l1 p l2,
     players s = l1 ++ p :: l2 /\ Player.id p = id /\
     players (removePlayer id s) = l1 ++ l2 /\
     (List.length (players (removePlayer id s)) + 1 = List.length (players s))%nat).
Proof.
  split.
  - intros H. unfold removePlayer. rewrite filter_id_absent by exact H.
    apply setPlayers_same.
  - intros H. destruct (filter_id_once id (players s) H) as (l1 & p & l2 & E1 & E2 & E3).
    exists l1, p, l2. unfold removePlayer. cbn [players setPlayers].
    repeat split; try assumption.
    rewrite E3, E1, !length_app. cbn [List.length]. lia.
Qed.

Lemma removePlayer_absent_or_once_witness :
  let s := setPlayers [alice; bob; carol] initialState in
  removePlayer 4000 s = s /\
  exists l1 p l2,
    players s = l1 ++ p :: l2 /\ Player.id p = 2000 /\
    players (removePlayer 2000 s) = l1 ++ l2 /\
    (List.length (players (removePlayer 2000 s)) + 1 = List.length (players s))%nat.
Proof.
  cbv zeta. split.
  - apply (proj1 (removePlayer_absent_or_once 4000
                    (setPlayers [alice; bob; carol] initialState))).
    vm_compute. intros [H | [H | [H | []]]]; discriminate.
  - apply (proj2 (removePlayer_absent_or_once 2000
                    (setPlayers [alice; bob; carol] initialState))).
    reflexivity.
Defined.

(** C9: [clearHistory] empties the history and leaves the pool as it
    was; [clearAllPlayers] leaves a pool of size 0 whatever it held and
    leaves the history as it was. *)
Theorem clear_history_and_pool_are_independent (s : State) :
  winnersHistory (clearHistory s) = [] /\
  players (clearHistory s) = players s /\
  List.length (players (clearAllPlayers s)) = 0%nat /\
  winnersHistory (clearAllPlayers s) = winnersHistory s.
Proof. repeat split. Qed.

(** ** Requesting a draw *)

(** C8: a draw requested on an empty pool changes nothing: the state
    is the same, so the history has no new record, the engine is as idle
    as before, and no interval was started. *)
Theorem draw_on_empty_pool_is_rejected (v : Variant) (now : Z) (w : World) :
  players (ui w) = [] ->
  handleDraw now w = w /\
  step v (ClickDraw now) w = Some w /\
  winnersHistory (ui (handleDraw now w)) = winnersHistory (ui w) /\
  isDrawing (ui (handleDraw now w)) = isDrawing (ui w) /\
  intervals (handleDraw now w) = intervals w.
Proof.
  intros H.
  assert (E : handleDraw now w = w) by (unfold handleDraw; now rewrite H).
  rewrite E. repeat split.
  cbn [step]. unfold click_drawButton, drawButton_disabled. now rewrite H.
Qed.

Lemma draw_on_empty_pool_is_rejected_witness :
  players (ui initialWorld) = [] /\
  handleDraw 5000 initialWorld = initialWorld /\
  step Part000 (ClickDraw 5000) initialWorld = Some initialWorld /\
  winnersHistory (ui (handleDraw 5000 initialWorld)) = winnersHistory (ui initialWorld) /\
  isDrawing (ui (handleDraw 5000 initialWorld)) = isDrawing (ui initialWorld) /\
  intervals (handleDraw 5000 initialWorld) = intervals initialWorld.
Proof.
  split; [reflexivity|].
  apply draw_on_empty_pool_is_rejected. reflexivity.
Defined.

(** C6: while a draw is running the button is disabled, so a further
    request is not delivered: the world, with its intervals, stays as it
    is, and whatever happens afterwards happens as if the request had not
    been made. *)
Theorem draw_request_while_drawing_is_noop (v : Variant) (now : Z) (w : World) :
  isDrawing (ui w) = true ->
  step v (ClickDraw now) w = Some w /\
  forall es, run v (ClickDraw now :: es) w = run v es w.
Proof.
  intros H.
  assert (E : step v (ClickDraw now) w = Some w).
  { cbn [step]. unfold click_drawButton, drawButton_disabled.
    now rewrite H, orb_true_r. }
  split; [exact E|]. intros es. cbn [run]. now rewrite E.
Qed.

Lemma draw_request_while_drawing_is_noop_witness :
  let w := handleDraw 5000 (worldWith [alice; bob]) in
  isDrawing (ui w) = true /\
  step DashboardTsx (ClickDraw 6000) w = Some w /\
  forall es, run DashboardTsx (ClickDraw 6000 :: es) w = run DashboardTsx es w.
Proof.
  cbv zeta. split; [reflexivity|].
  apply draw_request_while_drawing_is_noop. reflexivity.
Defined.

(** ** The selection of the winner *)

Lemma array_get_in_bounds {A : Type} (a : list A) (k : Z) :
  0 <= k < Z.of_nat (List.length a) ->
  exists x, array_get a (Some k) = Some x /\ In x a.
Proof.
  intros [Hlo Hhi]. cbn [array_get].
  replace (0 <=? k) with true by (symmetry; apply Z.leb_le; exact Hlo).
  destruct (nth_error a (Z.to_nat k)) as [x |] eqn:E.
  - exists x. split; [reflexivity|]. eapply nth_error_In; exact E.
  - apply nth_error_None in E. lia.
Qed.

Lemma captured_winner_exists (rnd : spec_float) (pl : list Player.t) :
  pl <> [] -> Z.of_nat (List.length pl) < 2 ^ 53 ->
  is_random_value rnd = true ->
  exists newWinner,
    array_get pl (randomIndex rnd pl) = Some newWinner /\ In newWinner pl.
Proof.
  intros Hne Hlen Hr.
  destruct (randomIndex_bounds rnd pl Hne Hlen Hr) as (k & Ek & Hk).
  rewrite Ek. now apply array_get_in_bounds.
Qed.

(** C10: on a non-empty array (array lengths are below 2^32, the
    theorem allows up to 2^53) and for every value [Math.random()] may
    return, [Math.floor(Math.random() * players.length)] is an index inside
    the array and [players[randomIndex]] is an entrant of it, never
    [undefined]. *)
Theorem randomIndex_in_bounds (rnd : spec_float) (pl : list Player.t) :
  pl <> [] -> Z.of_nat (List.length pl) < 2 ^ 53 ->
  is_random_value rnd = true ->
  exists k newWinner,
    randomIndex rnd pl = Some k /\
    0 <= k < Z.of_nat (List.length pl) /\
    array_get pl (randomIndex rnd pl) = Some newWinner /\
    In newWinner pl.
Proof.
  intros Hne Hlen Hr.
  destruct (randomIndex_bounds rnd pl Hne Hlen Hr) as (k & Ek & Hk).
  destruct (array_get_in_bounds pl k Hk) as (x & Ex & Hin).
  exists k, x. rewrite Ek. auto.
Qed.

Lemma randomIndex_in_bounds_witness :
  exists k newWinner,
    randomIndex almostOne [alice; bob; carol] = Some k /\
    0 <= k < Z.of_nat (List.length [alice; bob; carol]) /\
    array_get [alice; bob; carol] (randomIndex almostOne [alice; bob; carol])
      = Some newWinner /\
    In newWinner [alice; bob; carol].
Proof.
  apply randomIndex_in_bounds.
  - discriminate.
  - vm_compute. reflexivity.
  - vm_compute. reflexivity.
Defined.

(** ** A running interval *)

Lemma nth_error_clearInterval (j i : nat) (l : list (option SpinClosure)) :
  nth_error (clearInterval j l) i =
  if Nat.eqb i j
  then match nth_error l i with Some _ => Some None | None => None end
  else nth_error l i.
Proof.
  revert i l. induction j as [| j IH]; intros i l.
  - destruct l as [| x l]; destruct i as [| i]; reflexivity.
  - destruct l as [| x l]; destruct i as [| i]; cbn [clearInterval nth_error Nat.eqb].
    + reflexivity.
    + now destruct (Nat.eqb i j).
    + reflexivity.
    + apply IH.
Qed.

Lemma spinInterval_slot (v : Variant) (j : nat) (now : Z) (rnd : spec_float)
  (date : jsstring) (w w' : World) (i : nat) (x : option SpinClosure) :
  spinInterval v j now rnd date w = Some w' ->
  nth_error (intervals w) i = Some x ->
  exists x', nth_error (intervals w') i = Some x' /\ slot_evolves x x'.
Proof.
  unfold spinInterval. intros H Hi.
  destruct (nth_error (intervals w) j) as [[cl |] |] eqn:Ej;
    try (injection H as <-; exists x; split; [exact Hi | now left]).
  destruct (spinDuration <=? now - spin_startTime cl);
    try (injection H as <-; exists x; split; [exact Hi | now left]).
  destruct (array_get (spin_players cl) (randomIndex rnd (spin_players cl)));
    [| discriminate].
  injection H as <-. cbn [intervals].
  rewrite nth_error_clearInterval, Hi.
  destruct (Nat.eqb i j).
  - exists None. split; [reflexivity | now right].
  - exists x. split; [reflexivity | now left].
Qed.

Lemma step_slot (v : Variant) (e : Event) (w w' : World) (i : nat)
  (x : option SpinClosure) :
  step v e w = Some w' ->
  nth_error (intervals w) i = Some x ->
  exists x', nth_error (intervals w') i = Some x' /\ slot_evolves x x'.
Proof.
  intros H Hi.
  destruct e; cbn [step] in H;
    try (injection H as <-; exists x; split; [exact Hi | now left]).
  - (* ClickDraw *)
    injection H as <-. exists x. split; [| now left].
    unfold click_drawButton, handleDraw.
    destruct (drawButton_disabled (ui w)); [exact Hi|].
    destruct (List.length (players (ui w)) =? 0)%nat; [exact Hi|].
    cbn [intervals]. rewrite nth_error_app1; [exact Hi|].
    apply nth_error_Some. congruence.
  - (* IntervalFires *)
    eapply spinInterval_slot; eassumption.
  - (* ConfettiTimeoutFires *)
    destruct (nth_error (timeouts w) k);
      injection H as <-; exists x; (split; [exact Hi | now left]).
Qed.

Lemma run_slot (v : Variant) (es : list Event) (w w' : World) (i : nat)
  (x : option SpinClosure) :
  run v es w = Some w' ->
  nth_error (intervals w) i = Some x ->
  exists x', nth_error (intervals w') i = Some x' /\ slot_evolves x x'.
Proof.
  revert w x. induction es as [| e es IH]; intros w x H Hi; cbn [run] in H.
  - injection H as <-. exists x. split; [exact Hi | now left].
  - destruct (step v e w) as [w1 |] eqn:E; [| discriminate].
    destruct (step_slot v e w w1 i x E Hi) as (x1 & H1 & Hx1).
    destruct (IH w1 x1 H H1) as (x2 & H2 & Hx2).
    exists x2. split; [exact H2|].
    unfold slot_evolves in *. destruct Hx1, Hx2; subst; auto.
Qed.

Lemma handleDraw_starts_interval (now : Z) (w : World) :
  players (ui w) <> [] ->
  nth_error (intervals (handleDraw now w)) (List.length (intervals w))
  = Some (Some (mkSpin (players (ui w)) now)).
Proof.
  intros H. unfold handleDraw.
  destruct (players (ui w)) as [| p l] eqn:E; [congruence|].
  cbn [List.length Nat.eqb intervals].
  rewrite nth_error_app2 by lia. now rewrite Nat.sub_diag.
Qed.

(** What the callback does once the delay has elapsed, for a closure
    whose captured pool is not empty. *)
Lemma spinInterval_completes (v : Variant) (i : nat) (now : Z)
  (rnd : spec_float) (date : jsstring) (w : World) (cl : SpinClosure) :
  nth_error (intervals w) i = Some (Some cl) ->
  spin_players cl <> [] ->
  Z.of_nat (List.length (spin_players cl)) < 2 ^ 53 ->
  spinDuration <= now - spin_startTime cl ->
  is_random_value rnd = true ->
  exists newWinner,
    In newWinner (spin_players cl) /\
    spinInterval v i now rnd date w =
    Some (mkWorld
            (mkState (postDrawPlayers v newWinner (players (ui w)))
                     (name (ui w)) (number (ui w)) (Some newWinner) false
                     (spread_with_date newWinner date :: winnersHistory (ui w))
                     true true)
            (clearInterval i (intervals w))
            (timeouts w ++ [now + 7000])).
Proof.
  intros Hi Hne Hlen Hel Hr.
  destruct (captured_winner_exists rnd (spin_players cl) Hne Hlen Hr)
    as (newWinner & Eget & Hin).
  exists newWinner. split; [exact Hin|].
  unfold spinInterval. rewrite Hi.
  replace (spinDuration <=? now - spin_startTime cl) with true
    by (symmetry; apply Z.leb_le; exact Hel).
  rewrite Eget. reflexivity.
Qed.

(** ** The end of a draw *)

(** C2: when a draw completes, the pool follows the policy of the
    variant: in Dashboard.tsx it becomes empty; in the other variant it is
    the pool of that moment without the entrants that carry the winner's
    id, the others in their order. *)
Theorem post_draw_pool_policy (v : Variant) (i : nat) (now : Z)
  (rnd : spec_float) (date : jsstring) (w : World) (cl : SpinClosure) :
  nth_error (intervals w) i = Some (Some cl) ->
  spin_players cl <> [] ->
  Z.of_nat (List.length (spin_players cl)) < 2 ^ 53 ->
  spinDuration <= now - spin_startTime cl ->
  is_random_value rnd = true ->
  exists newWinner w',
    step v (IntervalFires i now rnd date) w = Some w' /\
    winner (ui w') = Some newWinner /\
    match v with
    | DashboardTsx => players (ui w') = []
    | Part000 =>
        players (ui w') =
        filter (fun p => negb (Player.id p =? Player.id newWinner)) (players (ui w))
    end.
Proof.
  intros Hi Hne Hlen Hel Hr.
  destruct (spinInterval_completes v i now rnd date w cl Hi Hne Hlen Hel Hr)
    as (newWinner & _ & E).
  exists newWinner. eexists. cbn [step]. split; [exact E|].
  cbn [ui winner players]. split; [reflexivity|].
  destruct v; reflexivity.
Qed.

Lemma post_draw_pool_policy_witness :
  let w := handleDraw 5000 (worldWith [alice; bob; carol]) in
  exists newWinner w',
    step Part000 (IntervalFires 0 9000 almostOne sampleDate) w = Some w' /\
    winner (ui w') = Some newWinner /\
    players (ui w') =
    filter (fun p => negb (Player.id p =? Player.id newWinner)) (players (ui w)).
Proof.
  cbv zeta.
  apply (post_draw_pool_policy Part000 0 9000 almostOne sampleDate
           (handleDraw 5000 (worldWith [alice; bob; carol]))
           (mkSpin [alice; bob; carol] 5000)).
  - reflexivity.
  - discriminate.
  - vm_compute. reflexivity.
  - vm_compute. discriminate.
  - vm_compute. reflexivity.
Defined.

(** C1, as stated, fails: the callback selects from the [players] it
    captured when the draw was requested.  Alice and Bob register, the
    draw starts, Alice is removed while it runs; at the end of the delay
    the record that enters the history is Alice's, and nobody in the pool
    of that moment has her name and number. *)
Lemma draw_selects_from_captured_pool :
  exists w1 w2 rec,
    run Part000 (registerAliceAndBob ++ [ClickDraw 5000; ClickRemove 1000])
        initialWorld = Some w1 /\
    players (ui w1) = [bob] /\
    step Part000 (IntervalFires 0 9000 (S754_zero false) sampleDate) w1 = Some w2 /\
    winnersHistory (ui w2) = rec :: winnersHistory (ui w1) /\
    Winner.name rec = js "Alice" /\
    ~ (exists p, In p (players (ui w1)) /\
                 Player.name p = Winner.name rec /\
                 Player.number p = Winner.number rec).
Proof.
  eexists. eexists. eexists.
  split; [vm_compute; reflexivity|].
  split; [reflexivity|].
  split; [vm_compute; reflexivity|].
  split; [reflexivity|].
  split; [reflexivity|].
  intros (p & [<- | []] & Hname & _). vm_compute in Hname. discriminate.
Qed.

(** C1, amended: a draw requested on a non-empty pool, once its delay
    has elapsed, puts exactly one record at the front of the history as
    it is at that moment, and the record's name, number and id are those
    of an entrant of the pool as it was when the draw was requested;
    that entrant is in the pool at completion too whenever the pool has
    not changed in between. *)
Theorem draw_adds_one_record_from_start_pool (v : Variant) (now0 : Z)
  (w0 : World) (es : list Event) (w1 : World) (cl : SpinClosure)
  (now : Z) (rnd : spec_float) (date : jsstring) :
  players (ui w0) <> [] ->
  Z.of_nat (List.length (players (ui w0))) < 2 ^ 53 ->
  run v es (handleDraw now0 w0) = Some w1 ->
  nth_error (intervals w1) (List.length (intervals w0)) = Some (Some cl) ->
  spinDuration <= now - now0 ->
  is_random_value rnd = true ->
  exists newWinner rec w2,
    step v (IntervalFires (List.length (intervals w0)) now rnd date) w1 = Some w2 /\
    winnersHistory (ui w2) = rec :: winnersHistory (ui w1) /\
    In newWinner (players (ui w0)) /\
    Winner.name rec = Player.name newWinner /\
    Winner.number rec = Player.number newWinner /\
    Winner.id rec = Player.id newWinner /\
    Winner.date rec = date /\
    (players (ui w1) = players (ui w0) -> In newWinner (players (ui w1))).
Proof.
  intros Hne Hlen Hrun Hlive Hel Hr.
  pose proof (handleDraw_starts_interval now0 w0 Hne) as Hstart.
  destruct (run_slot v es _ w1 _ _ Hrun Hstart) as (x' & Hx' & Hev).
  rewrite Hlive in Hx'. injection Hx' as <-.
  destruct Hev as [Hev | Hev]; [| discriminate].
  injection Hev as ->.
  destruct (spinInterval_completes v (List.length (intervals w0)) now rnd date w1
              (mkSpin (players (ui w0)) now0) Hlive Hne Hlen Hel Hr)
    as (newWinner & Hin & E).
  exists newWinner, (spread_with_date newWinner date). eexists.
  cbn [step]. split; [exact E|].
  cbn [ui winnersHistory spin_players] in *.
  repeat split; try reflexivity; try assumption.
  intros ->. exact Hin.
Qed.

Lemma draw_adds_one_record_from_start_pool_witness :
  exists newWinner rec w2,
    step DashboardTsx (IntervalFires 0 9000 almostOne sampleDate)
         (onUi (removePlayer 1000) (handleDraw 5000 (worldWith [alice; bob])))
    = Some w2 /\
    winnersHistory (ui w2) = rec :: [] /\
    In newWinner [alice; bob] /\
    Winner.name rec = Player.name newWinner /\
    Winner.number rec = Player.number newWinner /\
    Winner.id rec = Player.id newWinner /\
    Winner.date rec = sampleDate /\
    ([bob] = [alice; bob] -> In newWinner [bob]).
Proof.
  apply (draw_adds_one_record_from_start_pool DashboardTsx 5000
           (worldWith [alice; bob]) [ClickRemove 1000]
           (onUi (removePlayer 1000) (handleDraw 5000 (worldWith [alice; bob])))
           (mkSpin [alice; bob] 5000) 9000 almostOne sampleDate).
  - discriminate.
  - vm_compute. reflexivity.
  - reflexivity.
  - reflexivity.
  - vm_compute. discriminate.
  - vm_compute. reflexivity.
Defined.

(** ** Loading *)









(** ** Trimming *)

Lemma trimStart_head (s : jsstring) : no_ws_head (trimStart s).
Proof.
  induction s as [| c r IH]; cbn [trimStart]; [exact I|].
  destruct (is_white_space c) eqn:E; [exact IH | exact E].
Qed.

Lemma trimStart_fixed (s : jsstring) : no_ws_head s -> trimStart s = s.
Proof. destruct s as [| c r]; cbn; [reflexivity|]. now intros ->. Qed.

Lemma trimStart_suffix (s : jsstring) :
  exists w, s = w ++ trimStart s /\ forallb is_white_space w = true.
Proof.
  induction s as [| c r (w & E & Hw)]; cbn [trimStart].
  - exists []. split; reflexivity.
  - destruct (is_white_space c) eqn:Ec.
    + exists (c :: w). cbn [app forallb]. rewrite Ec, Hw. split; [congruence | reflexivity].
    + exists []. split; reflexivity.
Qed.

Lemma trimStart_blank (s : jsstring) :
  forallb is_white_space s = true -> trimStart s = [].
Proof.
  induction s as [| c r IH]; cbn [forallb trimStart]; [reflexivity|].
  intros H. apply andb_prop in H. destruct H as [-> H]. now apply IH.
Qed.

Lemma trimEnd_prefix (s : jsstring) : exists t, s = trimEnd s ++ t.
Proof.
  unfold trimEnd. destruct (trimStart_suffix (rev s)) as (w & E & _).
  exists (rev w). rewrite <- rev_app_distr, <- E. now rewrite rev_involutive.
Qed.

Lemma trimEnd_head (s : jsstring) : no_ws_head s -> no_ws_head (trimEnd s).
Proof.
  intros H. destruct (trimEnd_prefix s) as (t & E).
  destruct (trimEnd s) as [| c r]; [exact I|].
  rewrite E in H. exact H.
Qed.

Lemma trim_fixed (s : jsstring) :
  no_ws_head s -> no_ws_head (rev s) -> trim s = s.
Proof.
  intros H1 H2. unfold trim, trimEnd.
  rewrite (trimStart_fixed s H1), (trimStart_fixed (rev s) H2).
  apply rev_involutive.
Qed.

Lemma trim_idempotent (s : jsstring) : trim (trim s) = trim s.
Proof.
  apply trim_fixed.
  - unfold trim. apply trimEnd_head, trimStart_head.
  - unfold trim, trimEnd. rewrite rev_involutive. apply trimStart_head.
Qed.

Lemma trim_blank (s : jsstring) :
  forallb is_white_space s = true -> trim s = [].
Proof. intros H. unfold trim. now rewrite (trimStart_blank s H). Qed.

Lemma trim_trimmed_nonempty (s : jsstring) :
  trim s <> [] -> trimmed_nonempty (trim s).
Proof. intros H. split; [exact H | apply trim_idempotent]. Qed.

(** ** More on registration *)

Lemma handleRegister_blank (now : Z) (s : State) :
  trim (name s) = [] \/ trim (number s) = [] -> handleRegister now s = s.
Proof.
  intros H. unfold handleRegister.
  destruct H as [H | H]; apply truthy_false_iff in H; rewrite H.
  - reflexivity.
  - now rewrite orb_true_r.
Qed.

Lemma handleRegister_cases (now : Z) (s : State) :
  handleRegister now s = s \/
  (trim (name s) <> [] /\ trim (number s) <> [] /\
   handleRegister now s =
   setNumber [] (setName [] (setPlayers
     (players s ++ [Player.mk (trim (name s)) (trim (number s)) now]) s))).
Proof.
  destruct (trim (name s)) as [| c r] eqn:En.
  - left. apply handleRegister_blank. now left.
  - destruct (trim (number s)) as [| c' r'] eqn:Em.
    + left. apply handleRegister_blank. now right.
    + right. split; [discriminate|]. split; [discriminate|].
      rewrite <- En, <- Em. apply handleRegister_accepts; congruence.
Qed.

(** X1: a name (or a number) made of white space only is empty after
    trimming, so the registration is rejected and the state stays as it
    is. *)
Theorem handleRegister_rejects_white_space (now : Z) (s : State) :
  forallb is_white_space (name s) = true \/
  forallb is_white_space (number s) = true ->
  handleRegister now s = s.
Proof.
  intros H. apply handleRegister_blank.
  destruct H as [H | H]; [left | right]; now apply trim_blank.
Qed.

Lemma handleRegister_rejects_white_space_witness :
  let s := setNumber (js "42") (setName [32; 9; 160; 12288] (setPlayers [alice] initialState)) in
  handleRegister 7000 s = s.
Proof.
  cbv zeta. apply handleRegister_rejects_white_space. left. reflexivity.
Defined.

(** X2: a registration empties the two input fields, so registering
    again at once (a second click, a repeated Enter) adds nothing: the
    second call leaves the state of the first. *)
Theorem handleRegister_twice (t1 t2 : Z) (s : State) :
  handleRegister t2 (handleRegister t1 s) = handleRegister t1 s.
Proof.
  destruct (handleRegister_cases t1 s) as [E | (_ & _ & E)].
  - rewrite E. destruct (handleRegister_cases t2 s) as [E2 | (Hn & Hm & _)].
    + exact E2.
    + unfold handleRegister in E.
      apply truthy_true_iff in Hn. apply truthy_true_iff in Hm.
      rewrite Hn, Hm in E. cbn [negb orb] in E.
      apply (f_equal players) in E. cbn [players setPlayers setName setNumber] in E.
      apply (f_equal (@List.length _)) in E. rewrite length_app in E.
      cbn [List.length] in E. lia.
  - rewrite E. apply handleRegister_blank. left. reflexivity.
Qed.

(** ** More on removal *)

Lemma filter_filter_comm {A : Type} (f g : A -> bool) (l : list A) :
  filter f (filter g l) = filter g (filter f l).
Proof.
  induction l as [| x l IH]; cbn [filter]; [reflexivity|].
  destruct (f x) eqn:Ef, (g x) eqn:Eg; cbn [filter];
    rewrite ?Ef, ?Eg, IH; reflexivity.
Qed.

Lemma filter_idem {A : Type} (f : A -> bool) (l : list A) :
  filter f (filter f l) = filter f l.
Proof.
  induction l as [| x l IH]; cbn [filter]; [reflexivity|].
  destruct (f x) eqn:Ef; cbn [filter]; rewrite ?Ef, IH; reflexivity.
Qed.

Lemma filter_id_gone (id : Z) (l : list Player.t) :
  ~ In id (map Player.id (filter (fun p => negb (Player.id p =? id)) l)).
Proof.
  intros H. apply in_map_iff in H. destruct H as (p & E & Hin).
  apply filter_In in Hin. destruct Hin as [_ Hp].
  apply Z.eqb_eq in E. rewrite E in Hp. discriminate.
Qed.

(** X3: after [removePlayer id] no entrant of the pool carries [id];
    removing the same id again changes nothing; and two removals give the
    same state in either order. *)
Theorem removePlayer_composes (a b : Z) (s : State) :
  ~ In a (map Player.id (players (removePlayer a s))) /\
  removePlayer a (removePlayer a s) = removePlayer a s /\
  removePlayer a (removePlayer b s) = removePlayer b (removePlayer a s).
Proof.
  unfold removePlayer. cbn [players setPlayers name number winner isDrawing
                            winnersHistory showConfetti showWinnerPopup].
  split; [apply filter_id_gone|]. split.
  - now rewrite filter_idem.
  - now rewrite filter_filter_comm.
Qed.

(** ** What one run of the interval callback can do *)

Lemma array_get_In {A : Type} (a : list A) (k : option Z) (x : A) :
  array_get a k = Some x -> In x a.
Proof.
  destruct k as [i |]; cbn [array_get]; [| discriminate].
  destruct (0 <=? i); [| discriminate]. apply nth_error_In.
Qed.

Lemma spinInterval_cases (v : Variant) (i : nat) (now : Z) (rnd : spec_float)
  (date : jsstring) (w w' : World) :
  spinInterval v i now rnd date w = Some w' ->
  w' = w \/
  exists cl newWinner,
    nth_error (intervals w) i = Some (Some cl) /\
    spinDuration <= now - spin_startTime cl /\
    In newWinner (spin_players cl) /\
    w' = mkWorld
           (mkState (postDrawPlayers v newWinner (players (ui w)))
                    (name (ui w)) (number (ui w)) (Some newWinner) false
                    (spread_with_date newWinner date :: winnersHistory (ui w))
                    true true)
           (clearInterval i (intervals w))
           (timeouts w ++ [now + 7000]).
Proof.
  unfold spinInterval. intros H.
  destruct (nth_error (intervals w) i) as [[cl |] |] eqn:Ei;
    try (injection H as <-; now left).
  destruct (Z.leb_spec spinDuration (now - spin_startTime cl)) as [Hel | Hel];
    try (injection H as <-; now left).
  destruct (array_get (spin_players cl) (randomIndex rnd (spin_players cl)))
    as [newWinner |] eqn:Eg; [| discriminate].
  injection H as <-. right. exists cl, newWinner.
  repeat split; try assumption. eapply array_get_In; exact Eg.
Qed.

Lemma clearInterval_live_slot (j i : nat) (l : list (option SpinClosure))
  (cl : SpinClosure) :
  nth_error (clearInterval j l) i = Some (Some cl) ->
  nth_error l i = Some (Some cl).
Proof.
  rewrite nth_error_clearInterval.
  destruct (Nat.eqb i j); [| auto].
  destruct (nth_error l i); discriminate.
Qed.

Lemma handleRegister_isDrawing (now : Z) (s : State) :
  isDrawing (handleRegister now s) = isDrawing s /\
  winner (handleRegister now s) = winner s /\
  winnersHistory (handleRegister now s) = winnersHistory s.
Proof.
  destruct (handleRegister_cases now s) as [E | (_ & _ & E)]; rewrite E;
    repeat split.
Qed.

Lemma handleKeyPress_cases (key : jsstring) (now : Z) (s : State) :
  handleKeyPress key now s = s \/ handleKeyPress key now s = handleRegister now s.
Proof.
  unfold handleKeyPress. destruct (list_eq_dec Z.eq_dec key (js "Enter")); auto.
Qed.

(** ** Invariant: names and numbers are trimmed and not empty *)

Lemma handleRegister_entrants (now : Z) (s : State) :
  Forall entrant_ok (players s) ->
  Forall entrant_ok (players (handleRegister now s)).
Proof.
  intros H. destruct (handleRegister_cases now s) as [E | (Hn & Hm & E)];
    rewrite E; [exact H|].
  cbn [players setPlayers setName setNumber].
  apply Forall_app. split; [exact H|].
  constructor; [| constructor].
  split; cbn [Player.name Player.number]; now apply trim_trimmed_nonempty.
Qed.

Lemma Forall_filter_keep {A : Type} (P : A -> Prop) (f : A -> bool) (l : list A) :
  Forall P l -> Forall P (filter f l).
Proof.
  intros H. apply Forall_forall. intros x Hx. apply filter_In in Hx.
  destruct Hx as [Hx _]. revert x Hx. now apply Forall_forall.
Qed.

Lemma postDrawPlayers_entrants (v : Variant) (p : Player.t) (l : list Player.t) :
  Forall entrant_ok l -> Forall entrant_ok (postDrawPlayers v p l).
Proof.
  intros H. destruct v; cbn [postDrawPlayers];
    [constructor | now apply Forall_filter_keep].
Qed.

Lemma fields_ok_ext (w w' : World) :
  players (ui w') = players (ui w) ->
  intervals w' = intervals w ->
  winner (ui w') = winner (ui w) ->
  winnersHistory (ui w') = winnersHistory (ui w) ->
  fields_ok w -> fields_ok w'.
Proof.
  unfold fields_ok. intros -> -> -> ->. exact (fun H => H).
Qed.

Lemma fields_ok_pool (w : World) (s : State) :
  Forall entrant_ok (players s) ->
  winner s = winner (ui w) ->
  winnersHistory s = winnersHistory (ui w) ->
  fields_ok w -> fields_ok (mkWorld s (intervals w) (timeouts w)).
Proof.
  unfold fields_ok. cbn [ui intervals]. intros Hp -> -> (_ & Hc & Hw & Hh).
  auto.
Qed.

Lemma step_fields_ok (v : Variant) (e : Event) (w w' : World) :
  fields_ok w -> step v e w = Some w' -> fields_ok w'.
Proof.
  intros Hall H. pose proof Hall as (Hp & Hc & Hw & Hh).
  destruct e; cbn [step] in H;
    try (injection H as <-; now apply (fields_ok_ext w)).
  - (* KeyDown *)
    injection H as <-. unfold onUi.
    destruct (handleKeyPress_cases key now (ui w)) as [E | E]; rewrite E.
    + now apply (fields_ok_ext w).
    + destruct (handleRegister_isDrawing now (ui w)) as (_ & E2 & E3).
      apply fields_ok_pool; auto. now apply handleRegister_entrants.
  - (* ClickRegister *)
    injection H as <-. unfold onUi.
    destruct (handleRegister_isDrawing now (ui w)) as (_ & E2 & E3).
    apply fields_ok_pool; auto. now apply handleRegister_entrants.
  - (* ClickClearAll *)
    injection H as <-. unfold onUi. apply fields_ok_pool; auto.
  - (* ClickRemove *)
    injection H as <-. unfold onUi. apply fields_ok_pool; auto.
    cbn [removePlayer players setPlayers]. now apply Forall_filter_keep.
  - (* ClickDraw *)
    injection H as <-. unfold click_drawButton, handleDraw.
    destruct (drawButton_disabled (ui w)); [exact Hall|].
    destruct (List.length (players (ui w)) =? 0)%nat; [exact Hall|].
    unfold fields_ok. cbn [ui intervals players winner winnersHistory
      setShowWinnerPopup setShowConfetti setWinner setIsDrawing].
    split; [exact Hp|]. split; [| split; [discriminate | exact Hh]].
    intros i cl Hi.
    destruct (Nat.lt_ge_cases i (List.length (intervals w))) as [Hlt | Hge].
    + rewrite nth_error_app1 in Hi by exact Hlt. eapply Hc; exact Hi.
    + rewrite nth_error_app2 in Hi by exact Hge.
      destruct (i - List.length (intervals w))%nat as [| n]; cbn [nth_error] in Hi.
      * injection Hi as <-. exact Hp.
      * destruct n; discriminate.
  - (* IntervalFires *)
    destruct (spinInterval_cases v i now rnd date w w' H)
      as [-> | (cl & nw & Hi & _ & Hin & ->)]; [exact Hall|].
    assert (Hnw : entrant_ok nw).
    { pose proof (Hc i cl Hi) as Hcl. rewrite Forall_forall in Hcl. now apply Hcl. }
    unfold fields_ok. cbn [ui intervals players winner winnersHistory].
    split; [now apply postDrawPlayers_entrants|]. split; [| split].
    + intros j cl' Hj. apply clearInterval_live_slot in Hj. eapply Hc; exact Hj.
    + intros p Ep. injection Ep as <-. exact Hnw.
    + constructor; [exact Hnw | exact Hh].
  - (* ConfettiTimeoutFires *)
    destruct (nth_error (timeouts w) k); injection H as <-;
      now apply (fields_ok_ext w).
  - (* ClickClearHistory *)
    injection H as <-. unfold fields_ok.
    cbn [onUi ui intervals clearHistory setWinnersHistory players winner winnersHistory].
    split; [exact Hp|]. split; [exact Hc|]. split; [exact Hw | constructor].
Qed.

(** X4: no event breaks the trimmed fields: if every entrant the page
    holds has a name and a number that are not empty and carry no leading
    or trailing white space, the same is true after any run.  (Entrants
    read from storage at mount are not checked; the page keeps the
    property from the mount on when the stored entrants have it.) *)
Theorem run_keeps_fields_trimmed (v : Variant) (es : list Event) (w w' : World) :
  fields_ok w -> run v es w = Some w' -> fields_ok w'.
Proof.
  revert w. induction es as [| e es IH]; intros w Hw H; cbn [run] in H.
  - now injection H as <-.
  - destruct (step v e w) as [w1 |] eqn:E; [| discriminate].
    eapply IH; [| exact H]. eapply step_fields_ok; eassumption.
Qed.

Lemma fields_ok_initial : fields_ok initialWorld.
Proof.
  unfold fields_ok. cbn. split; [constructor|]. split; [| split].
  - intros i cl H. destruct i; discriminate.
  - discriminate.
  - constructor.
Qed.

Lemma fields_ok_mounted (st : Storage) (w0 : World) :
  mount st = Normal (Some w0) ->
  Forall entrant_ok (players (ui w0)) ->
  Forall record_ok (winnersHistory (ui w0)) ->
  fields_ok w0.
Proof.
  unfold mount. intros H Hp Hh.
  destruct (load st) as [[vp vh] | e]; [| discriminate].
  destruct (players_of_JSON vp) as [pool |]; [| discriminate].
  destruct (winners_of_JSON vh) as [history |]; [| discriminate].
  injection H as <-. cbn in Hp, Hh.
  unfold fields_ok. cbn. split; [exact Hp|]. split; [| split].
  - intros i cl H. destruct i; discriminate.
  - discriminate.
  - exact Hh.
Qed.

Lemma trimmed_nonempty_intro (s : jsstring) :
  truthy s = true -> trim s = s -> trimmed_nonempty s.
Proof. intros H1 H2. split; [now apply truthy_true_iff | exact H2]. Qed.

Lemma run_keeps_fields_trimmed_witness :
  fields_ok
    (mkWorld (mkState [bob; Player.mk (js "Dave") (js "7") 4000] [] [] None false
                      [carolRecord] false false) [] []).
Proof.
  apply (run_keeps_fields_trimmed Part000
           [ChangeName (js "  Dave "); ChangeNumber (js "7"); ClickRegister 4000;
            ClickRemove 1000]
           mountedAliceAndBob).
  - apply (fields_ok_mounted storedAliceAndBob).
    + vm_compute. reflexivity.
    + repeat constructor;
        apply trimmed_nonempty_intro; reflexivity.
    + repeat constructor;
        apply trimmed_nonempty_intro; reflexivity.
  - reflexivity.
Defined.

(** ** Invariant: one running interval while drawing, none otherwise *)

Lemma live_intervals_app (l1 l2 : list (option SpinClosure)) :
  live_intervals (l1 ++ l2) = (live_intervals l1 + live_intervals l2)%nat.
Proof.
  induction l1 as [| [cl |] l1 IH]; cbn [app live_intervals]; lia.
Qed.

Lemma live_intervals_clear (i : nat) (l : list (option SpinClosure))
  (cl : SpinClosure) :
  nth_error l i = Some (Some cl) ->
  S (live_intervals (clearInterval i l)) = live_intervals l.
Proof.
  revert l. induction i as [| i IH]; intros [| x l] H; try discriminate.
  - cbn [nth_error] in H. injection H as ->. reflexivity.
  - cbn [nth_error] in H. cbn [clearInterval].
    destruct x; cbn [live_intervals]; rewrite <- (IH l H); reflexivity.
Qed.

Lemma timers_ok_ext (w w' : World) :
  isDrawing (ui w') = isDrawing (ui w) ->
  intervals w' = intervals w ->
  timers_ok w -> timers_ok w'.
Proof. unfold timers_ok. intros -> ->. exact (fun H => H). Qed.

Lemma nth_error_snoc_live (l : list (option SpinClosure)) (x cl : SpinClosure)
  (i : nat) :
  nth_error (l ++ [Some x]) i = Some (Some cl) ->
  nth_error l i = Some (Some cl) \/ cl = x.
Proof.
  intros Hi.
  destruct (Nat.lt_ge_cases i (List.length l)) as [Hlt | Hge].
  - left. now rewrite nth_error_app1 in Hi by exact Hlt.
  - right. rewrite nth_error_app2 in Hi by exact Hge.
    destruct (i - List.length l)%nat as [| n]; cbn [nth_error] in Hi.
    + now injection Hi as <-.
    + destruct n; discriminate.
Qed.

Lemma step_timers_ok (v : Variant) (e : Event) (w w' : World) :
  timers_ok w -> step v e w = Some w' -> timers_ok w'.
Proof.
  intros Hall H. pose proof Hall as (Hn & Hc).
  destruct e; cbn [step] in H;
    try (injection H as <-; now apply (timers_ok_ext w)).
  - (* KeyDown *)
    injection H as <-. apply (timers_ok_ext w); [| reflexivity | exact Hall].
    cbn [onUi ui].
    destruct (handleKeyPress_cases key now (ui w)) as [E | E]; rewrite E;
      [reflexivity | apply handleRegister_isDrawing].
  - (* ClickRegister *)
    injection H as <-. apply (timers_ok_ext w); [| reflexivity | exact Hall].
    apply handleRegister_isDrawing.
  - (* ClickDraw *)
    injection H as <-. unfold click_drawButton, drawButton_disabled, handleDraw.
    destruct (players (ui w)) as [| p l] eqn:Ep; cbn [List.length Nat.eqb orb];
      [exact Hall|].
    destruct (isDrawing (ui w)) eqn:Ed; [exact Hall|].
    unfold timers_ok. cbn [ui intervals isDrawing setShowWinnerPopup
      setShowConfetti setWinner setIsDrawing].
    split.
    + rewrite live_intervals_app, Hn. reflexivity.
    + intros i cl Hi. apply nth_error_snoc_live in Hi.
      destruct Hi as [Hi | ->]; [eapply Hc; exact Hi | cbn; congruence].
  - (* IntervalFires *)
    destruct (spinInterval_cases v i now rnd date w w' H)
      as [-> | (cl & nw & Hi & _ & _ & ->)]; [exact Hall|].
    pose proof (live_intervals_clear i (intervals w) cl Hi) as Hlive.
    unfold timers_ok. cbn [ui intervals isDrawing]. split.
    + destruct (isDrawing (ui w)); lia.
    + intros j cl' Hj. apply clearInterval_live_slot in Hj. eapply Hc; exact Hj.
  - (* ConfettiTimeoutFires *)
    destruct (nth_error (timeouts w) k); injection H as <-;
      now apply (timers_ok_ext w).
Qed.

Lemma run_timers_ok (v : Variant) (es : list Event) (w w' : World) :
  timers_ok w -> run v es w = Some w' -> timers_ok w'.
Proof.
  revert w. induction es as [| e es IH]; intros w Hw H; cbn [run] in H.
  - now injection H as <-.
  - destruct (step v e w) as [w1 |] eqn:E; [| discriminate].
    eapply IH; [| exact H]. eapply step_timers_ok; eassumption.
Qed.

Lemma timers_ok_initial : timers_ok initialWorld.
Proof.
  split; [reflexivity|]. intros i cl H. destruct i; discriminate.
Qed.




(** X6: in a world where the engine and the timers agree (every world
    the mounted page reaches), no event makes the callback look up a
    winner that does not exist: with random values that [Math.random()]
    can return and captured pools of representable length, every event has
    a successor world. *)
Theorem step_never_undefined (v : Variant) (e : Event) (w : World) :
  timers_ok w ->
  event_random_ok e ->
  (forall i cl, nth_error (intervals w) i = Some (Some cl) ->
                Z.of_nat (List.length (spin_players cl)) < 2 ^ 53) ->
  exists w', step v e w = Some w'.
Proof.
  intros (_ & Hc) Hr Hb.
  destruct e; cbn [step]; try (eexists; reflexivity).
  - cbn [event_random_ok] in Hr. unfold spinInterval.
    destruct (nth_error (intervals w) i) as [[cl |] |] eqn:Ei;
      try (eexists; reflexivity).
    destruct (spinDuration <=? now - spin_startTime cl);
      try (eexists; reflexivity).
    destruct (captured_winner_exists rnd (spin_players cl)
                (Hc i cl Ei) (Hb i cl Ei) Hr) as (nw & -> & _).
    eexists; reflexivity.
  - destruct (nth_error (timeouts w) k); eexists; reflexivity.
Qed.

Lemma step_never_undefined_witness :
  exists w',
    step Part000 (IntervalFires 0 9000 almostOne sampleDate)
         (handleDraw 5000 (worldWith [alice; bob])) = Some w'.
Proof.
  apply step_never_undefined.
  - apply (run_timers_ok Part000 [ClickDraw 5000] (worldWith [alice; bob])).
    + split; [reflexivity|]. intros i cl H. destruct i; discriminate.
    + reflexivity.
  - vm_compute. reflexivity.
  - intros [| [| i]] cl H; try discriminate.
    injection H as <-. vm_compute. reflexivity.
Defined.

(** ** The history *)

(** X7: the history only grows at its front, one record at a time:
    every event other than the click on "clear history" leaves the old
    history as it is behind at most one new record. *)
Theorem history_grows_at_front (v : Variant) (e : Event) (w w' : World) :
  step v e w = Some w' ->
  e <> ClickClearHistory ->
  exists new,
    winnersHistory (ui w') = new ++ winnersHistory (ui w) /\
    (List.length new <= 1)%nat.
Proof.
  intros H Hne.
  destruct e; cbn [step] in H; try congruence;
    try (injection H as <-; exists []; split; [reflexivity | cbn; lia]).
  - injection H as <-. exists []. split; [| cbn; lia]. cbn [onUi ui app].
    destruct (handleKeyPress_cases key now (ui w)) as [E | E]; rewrite E;
      [reflexivity | apply handleRegister_isDrawing].
  - injection H as <-. exists []. split; [| cbn; lia].
    apply handleRegister_isDrawing.
  - injection H as <-. exists []. split; [| cbn; lia].
    unfold click_drawButton, handleDraw.
    destruct (drawButton_disabled (ui w)); [reflexivity|].
    destruct (List.length (players (ui w)) =? 0)%nat; reflexivity.
  - destruct (spinInterval_cases v i now rnd date w w' H)
      as [-> | (cl & nw & _ & _ & _ & ->)].
    + exists []. split; [reflexivity | cbn; lia].
    + exists [spread_with_date nw date]. split; [reflexivity | cbn; lia].
  - destruct (nth_error (timeouts w) k); injection H as <-;
      exists []; (split; [reflexivity | cbn; lia]).
Qed.

Lemma history_grows_at_front_witness :
  exists new,
    [spread_with_date bob sampleDate; carolRecord] = new ++ [carolRecord] /\
    (List.length new <= 1)%nat.
Proof.
  apply (history_grows_at_front DashboardTsx
           (IntervalFires 0 9000 almostOne sampleDate)
           (handleDraw 5000 mountedAliceAndBob)
           (mkWorld (mkState [] [] [] (Some bob) false
                             [spread_with_date bob sampleDate; carolRecord]
                             true true)
                    [None] [16000])).
  - vm_compute. reflexivity.
  - discriminate.
Defined.

(** X8: a draw yields one record and no more: once the callback has
    completed, its interval is cleared, and a later firing of the same
    interval, whatever happened in between, changes nothing. *)
Theorem completed_interval_is_silent (v : Variant) (i : nat) (now : Z)
  (rnd : spec_float) (date : jsstring) (w w2 : World) (cl : SpinClosure)
  (es : list Event) (w3 : World) (now' : Z) (rnd' : spec_float)
  (date' : jsstring) :
  nth_error (intervals w) i = Some (Some cl) ->
  spinDuration <= now - spin_startTime cl ->
  step v (IntervalFires i now rnd date) w = Some w2 ->
  run v es w2 = Some w3 ->
  step v (IntervalFires i now' rnd' date') w3 = Some w3.
Proof.
  intros Hi Hel H Hrun. cbn [step] in H.
  assert (Hcleared : nth_error (intervals w2) i = Some None).
  { destruct (spinInterval_cases v i now rnd date w w2 H)
      as [-> | (cl' & nw & _ & _ & _ & ->)].
    - exfalso. unfold spinInterval in H. rewrite Hi in H.
      replace (spinDuration <=? now - spin_startTime cl) with true in H
        by (symmetry; apply Z.leb_le; exact Hel).
      destruct (array_get (spin_players cl) (randomIndex rnd (spin_players cl)));
        [| discriminate].
      injection H as H. apply (f_equal intervals) in H. cbn [intervals] in H.
      pose proof (nth_error_clearInterval i i (intervals w)) as Hc.
      rewrite H, Hi, Nat.eqb_refl in Hc. discriminate.
    - cbn [intervals]. now rewrite nth_error_clearInterval, Nat.eqb_refl, Hi. }
  destruct (run_slot v es w2 w3 i None Hrun Hcleared) as (x & Hx & [-> | ->]);
    cbn [step]; unfold spinInterval; now rewrite Hx.
Qed.

Lemma completed_interval_is_silent_witness :
  exists w2,
    step Part000 (IntervalFires 0 9000 almostOne sampleDate)
         (handleDraw 5000 (worldWith [alice; bob])) = Some w2 /\
    step Part000 (IntervalFires 0 9100 almostOne sampleDate) w2 = Some w2.
Proof.
  eexists. split; [vm_compute; reflexivity|].
  eapply (completed_interval_is_silent Part000 0 9000 almostOne sampleDate
            (handleDraw 5000 (worldWith [alice; bob])) _
            (mkSpin [alice; bob] 5000) []).
  - reflexivity.
  - vm_compute. discriminate.
  - vm_compute. reflexivity.
  - reflexivity.
Defined.

(** X9: before the delay has elapsed the callback does nothing: a
    firing of a running interval earlier than [spinDuration] after its
    start leaves the world as it is. *)
Theorem early_tick_is_noop (v : Variant) (i : nat) (now : Z)
  (rnd : spec_float) (date : jsstring) (w : World) (cl : SpinClosure) :
  nth_error (intervals w) i = Some (Some cl) ->
  now - spin_startTime cl < spinDuration ->
  step v (IntervalFires i now rnd date) w = Some w.
Proof.
  intros Hi Hlt. cbn [step]. unfold spinInterval. rewrite Hi.
  replace (spinDuration <=? now - spin_startTime cl) with false
    by (symmetry; apply Z.leb_gt; exact Hlt).
  reflexivity.
Qed.

Lemma early_tick_is_noop_witness :
  let w := handleDraw 5000 (worldWith [alice; bob]) in
  step Part000 (IntervalFires 0 8999 almostOne sampleDate) w = Some w.
Proof.
  cbv zeta.
  apply (early_tick_is_noop Part000 0 8999 almostOne sampleDate _
           (mkSpin [alice; bob] 5000)).
  - reflexivity.
  - vm_compute. reflexivity.
Defined.

(** ** More on the end of a draw *)

(** X10: in the variant that removes only the winner, the pool after
    a completed draw holds exactly the entrants of the pool of that moment
    whose id differs from the winner's: nobody with the winner's id is
    left, and everyone else, entrants registered during the delay
    included, stays. *)
Theorem post_draw_keeps_the_others (i : nat) (now : Z) (rnd : spec_float)
  (date : jsstring) (w : World) (cl : SpinClosure) :
  nth_error (intervals w) i = Some (Some cl) ->
  spin_players cl <> [] ->
  Z.of_nat (List.length (spin_players cl)) < 2 ^ 53 ->
  spinDuration <= now - spin_startTime cl ->
  is_random_value rnd = true ->
  exists newWinner w',
    step Part000 (IntervalFires i now rnd date) w = Some w' /\
    winner (ui w') = Some newWinner /\
    ~ In (Player.id newWinner) (map Player.id (players (ui w'))) /\
    (forall p, In p (players (ui w')) <->
               In p (players (ui w)) /\ Player.id p <> Player.id newWinner).
Proof.
  intros Hi Hne Hlen Hel Hr.
  destruct (spinInterval_completes Part000 i now rnd date w cl Hi Hne Hlen Hel Hr)
    as (nw & _ & E).
  exists nw. eexists. cbn [step]. split; [exact E|].
  cbn [ui winner players postDrawPlayers]. split; [reflexivity|].
  split; [apply filter_id_gone|].
  intros p. rewrite filter_In, negb_true_iff, Z.eqb_neq. reflexivity.
Qed.

Lemma post_draw_keeps_the_others_witness :
  exists newWinner w',
    step Part000 (IntervalFires 0 9000 almostOne sampleDate)
         (onUi (setPlayers [alice; bob; carol])
               (handleDraw 5000 (worldWith [alice; bob]))) = Some w' /\
    winner (ui w') = Some newWinner /\
    ~ In (Player.id newWinner) (map Player.id (players (ui w'))) /\
    (forall p, In p (players (ui w')) <->
               In p [alice; bob; carol] /\ Player.id p <> Player.id newWinner).
Proof.
  apply (post_draw_keeps_the_others 0 9000 almostOne sampleDate
           (onUi (setPlayers [alice; bob; carol])
                 (handleDraw 5000 (worldWith [alice; bob])))
           (mkSpin [alice; bob] 5000)).
  - reflexivity.
  - discriminate.
  - vm_compute. reflexivity.
  - vm_compute. discriminate.
  - vm_compute. reflexivity.
Defined.

Lemma NoDup_count_occ_once (l : list Z) (x : Z) :
  NoDup l -> In x l -> count_occ Z.eq_dec l x = 1%nat.
Proof.
  intros Hnd Hin.
  pose proof (proj1 (NoDup_count_occ Z.eq_dec l) Hnd x) as Hle.
  pose proof (proj1 (count_occ_In Z.eq_dec l x) Hin) as Hge. lia.
Qed.

(** X11: in the variant that removes only the winner, when the pool
    has not changed during the delay and its ids are pairwise distinct,
    the draw takes exactly one entrant out: the pool is one shorter and
    the winner is the entrant that left. *)
Theorem post_draw_removes_exactly_the_winner (i : nat) (now : Z)
  (rnd : spec_float) (date : jsstring) (w : World) (cl : SpinClosure) :
  nth_error (intervals w) i = Some (Some cl) ->
  spin_players cl <> [] ->
  Z.of_nat (List.length (spin_players cl)) < 2 ^ 53 ->
  spinDuration <= now - spin_startTime cl ->
  is_random_value rnd = true ->
  players (ui w) = spin_players cl ->
  NoDup (map Player.id (players (ui w))) ->
  exists newWinner w' l1 l2,
    step Part000 (IntervalFires i now rnd date) w = Some w' /\
    winner (ui w') = Some newWinner /\
    players (ui w) = l1 ++ newWinner :: l2 /\
    players (ui w') = l1 ++ l2.
Proof.
  intros Hi Hne Hlen Hel Hr Hsame Hnd.
  destruct (spinInterval_completes Part000 i now rnd date w cl Hi Hne Hlen Hel Hr)
    as (nw & Hin & E).
  rewrite <- Hsame in Hin.
  assert (Hocc : count_occ Z.eq_dec (map Player.id (players (ui w))) (Player.id nw)
                 = 1%nat).
  { apply NoDup_count_occ_once; [exact Hnd|]. now apply in_map. }
  destruct (filter_id_once _ _ Hocc) as (l1 & p & l2 & E1 & E2 & E3).
  assert (p = nw).
  { (* two entrants of the pool with the same id are the same entrant *)
    rewrite E1 in Hin, Hnd. rewrite map_app in Hnd. cbn [map] in Hnd.
    apply in_app_or in Hin. destruct Hin as [Hin | [Hin | Hin]].
    - exfalso. apply NoDup_remove_2 in Hnd. apply Hnd.
      apply in_or_app. left. rewrite E2. now apply in_map.
    - exact Hin.
    - exfalso. apply NoDup_remove_2 in Hnd. apply Hnd.
      apply in_or_app. right. rewrite E2. now apply in_map. }
  subst p.
  exists nw. eexists. exists l1, l2. cbn [step]. split; [exact E|].
  cbn [ui winner players postDrawPlayers]. auto.
Qed.

Lemma post_draw_removes_exactly_the_winner_witness :
  exists newWinner w' l1 l2,
    step Part000 (IntervalFires 0 9000 almostOne sampleDate)
         (handleDraw 5000 (worldWith [alice; bob; carol])) = Some w' /\
    winner (ui w') = Some newWinner /\
    [alice; bob; carol] = l1 ++ newWinner :: l2 /\
    players (ui w') = l1 ++ l2.
Proof.
  apply (post_draw_removes_exactly_the_winner 0 9000 almostOne sampleDate
           (handleDraw 5000 (worldWith [alice; bob; carol]))
           (mkSpin [alice; bob; carol] 5000)).
  - reflexivity.
  - discriminate.
  - vm_compute. reflexivity.
  - vm_compute. discriminate.
  - vm_compute. reflexivity.
  - reflexivity.
  - repeat constructor; cbn; intuition discriminate.
Defined.

(** X12: [handleDraw] on a pool that is not empty starts a draw and
    touches nothing else: it raises [isDrawing], hides the previous winner
    and the popup, keeps pool and history, and registers one interval that
    captures the pool and the time of the request.  It does so whether or
    not a draw is running: the check of [isDrawing] is on the button
    only. *)
Theorem handleDraw_starts_one_draw (now : Z) (w : World) :
  players (ui w) <> [] ->
  let w' := handleDraw now w in
  isDrawing (ui w') = true /\
  winner (ui w') = None /\
  showWinnerPopup (ui w') = false /\
  players (ui w') = players (ui w) /\
  winnersHistory (ui w') = winnersHistory (ui w) /\
  intervals w' = intervals w ++ [Some (mkSpin (players (ui w)) now)].
Proof.
  intros H. cbv zeta. unfold handleDraw.
  destruct (players (ui w)) as [| p l] eqn:E; [congruence|].
  cbn [List.length Nat.eqb ui intervals]. repeat split. exact E.
Qed.

Lemma handleDraw_starts_one_draw_witness :
  let w := handleDraw 5000 (worldWith [alice]) in
  isDrawing (ui w) = true /\
  intervals (handleDraw 6000 w)
  = [Some (mkSpin [alice] 5000); Some (mkSpin [alice] 6000)].
Proof.
  cbv zeta.
  pose proof (handleDraw_starts_one_draw 6000 (handleDraw 5000 (worldWith [alice])))
    as H.
  split; [reflexivity|].
  apply H. discriminate.
Defined.

(** ** Strings survive [JSON.stringify] and [JSON.parse] *)

Lemma hex_digit_char (d : Z) : 0 <= d < 16 -> hex_digit (hex_char d) = Some d.
Proof.
  intros H.
  assert (C : d = 0 \/ d = 1 \/ d = 2 \/ d = 3 \/ d = 4 \/ d = 5 \/ d = 6 \/
              d = 7 \/ d = 8 \/ d = 9 \/ d = 10 \/ d = 11 \/ d = 12 \/
              d = 13 \/ d = 14 \/ d = 15) by lia.
  repeat (destruct C as [-> | C]; [reflexivity|]). subst. reflexivity.
Qed.

Lemma scan_string_escape_u (h1 h2 h3 h4 : code_unit) (rest : jsstring) :
  scan_string (92 :: 117 :: h1 :: h2 :: h3 :: h4 :: rest) =
  match hex_digit h1, hex_digit h2, hex_digit h3, hex_digit h4 with
  | Some a, Some b, Some c', Some d =>
      cons_fst (((a * 16 + b) * 16 + c') * 16 + d) (scan_string rest)
  | _, _, _, _ => None
  end.
Proof. reflexivity. Qed.

Lemma scan_unicode_escape (c : code_unit) (rest : jsstring) :
  0 <= c < 65536 ->
  scan_string (unicode_escape c ++ rest) = cons_fst c (scan_string rest).
Proof.
  intros H. unfold unicode_escape. cbn [app]. rewrite scan_string_escape_u.
  rewrite !hex_digit_char by (Z.to_euclidean_division_equations; lia).
  f_equal. Z.to_euclidean_division_equations. lia.
Qed.

Lemma scan_string_raw (c : code_unit) (rest : jsstring) :
  c <> 34 -> c <> 92 -> 32 <= c ->
  scan_string (c :: rest) = cons_fst c (scan_string rest).
Proof.
  intros H1 H2 H3. cbn [scan_string].
  apply Z.eqb_neq in H1. apply Z.eqb_neq in H2. rewrite H1, H2.
  replace (c <? 32) with false by (symmetry; apply Z.ltb_ge; exact H3).
  reflexivity.
Qed.

Lemma scan_quote_unit (c : code_unit) (rest : jsstring) :
  0 <= c < 65536 ->
  scan_string (quote_unit c ++ rest) = cons_fst c (scan_string rest).
Proof.
  intros H. unfold quote_unit.
  destruct (Z.eqb_spec c 8) as [-> | N8]; [reflexivity|].
  destruct (Z.eqb_spec c 9) as [-> | N9]; [reflexivity|].
  destruct (Z.eqb_spec c 10) as [-> | N10]; [reflexivity|].
  destruct (Z.eqb_spec c 12) as [-> | N12]; [reflexivity|].
  destruct (Z.eqb_spec c 13) as [-> | N13]; [reflexivity|].
  destruct (Z.eqb_spec c 34) as [-> | N34]; [reflexivity|].
  destruct (Z.eqb_spec c 92) as [-> | N92]; [reflexivity|].
  destruct (Z.ltb_spec c 32) as [Hlt | Hge].
  - now apply scan_unicode_escape.
  - cbn [app]. now apply scan_string_raw.
Qed.

Lemma surrogate_is_raw (c : code_unit) :
  is_high_surrogate c = true \/ is_low_surrogate c = true ->
  c <> 34 /\ c <> 92 /\ 32 <= c.
Proof.
  unfold is_high_surrogate, is_low_surrogate.
  intros [H | H]; apply andb_prop in H; destruct H as [H1 H2];
    apply Z.leb_le in H1; apply Z.leb_le in H2; lia.
Qed.

Lemma scan_quote_body_len (n : nat) (s rest : jsstring) :
  (List.length s <= n)%nat -> valid_string s ->
  scan_string (quote_body s ++ 34 :: rest) = Some (s, rest).
Proof.
  revert s. induction n as [| n IH]; intros s Hlen Hv.
  - destruct s; [reflexivity | cbn in Hlen; lia].
  - destruct s as [| c r]; [reflexivity|].
    cbn [List.length] in Hlen.
    inversion Hv as [| ? ? Hc Hr]; subst.
    assert (IHr : scan_string (quote_body r ++ 34 :: rest) = Some (r, rest))
      by (apply IH; [lia | exact Hr]).
    cbn [quote_body].
    destruct (is_high_surrogate c) eqn:Eh.
    + destruct r as [| d r'].
      * rewrite scan_unicode_escape by exact Hc. reflexivity.
      * destruct (is_low_surrogate d) eqn:El.
        -- inversion Hr as [| ? ? Hd Hr']; subst.
           cbn [app].
           destruct (surrogate_is_raw c (or_introl Eh)) as (A1 & A2 & A3).
           destruct (surrogate_is_raw d (or_intror El)) as (B1 & B2 & B3).
           rewrite scan_string_raw, scan_string_raw by assumption.
           rewrite IH by (cbn [List.length] in Hlen; try lia; assumption).
           reflexivity.
        -- rewrite <- app_assoc, scan_unicode_escape by exact Hc.
           now rewrite IHr.
    + destruct (is_low_surrogate c) eqn:El.
      * rewrite <- app_assoc, scan_unicode_escape by exact Hc. now rewrite IHr.
      * rewrite <- app_assoc, scan_quote_unit by exact Hc. now rewrite IHr.
Qed.

Lemma scan_quote_body (s rest : jsstring) :
  valid_string s ->
  scan_string (quote_body s ++ 34 :: rest) = Some (s, rest).
Proof. apply (scan_quote_body_len (List.length s)). lia. Qed.

(** ** Integers survive [JSON.stringify] and [JSON.parse] *)

Lemma span_digits_units (d : Decimal.uint) (rest : jsstring) :
  no_digit_head rest ->
  span_digits (uint_units d ++ rest) = (uint_units d, rest).
Proof.
  intros H. induction d as [| d IH | d IH | d IH | d IH | d IH
                            | d IH | d IH | d IH | d IH | d IH];
    cbn [uint_units app];
    try (cbn [span_digits]; rewrite IH; reflexivity).
  destruct rest as [| c r]; [reflexivity|].
  cbn [span_digits]. cbn in H. now rewrite H.
Qed.

Lemma to_uint_head (p : positive) :
  exists c r,
    uint_units (Pos.to_uint p) = c :: r /\
    is_digit c = true /\ c <> 48 /\ c <> 45 /\
    exists d, r = uint_units d.
Proof.
  assert (Hnorm : Pos.to_uint p = Decimal.unorm (Pos.to_uint p)).
  { rewrite <- (DecimalPos.Unsigned.to_of (Pos.to_uint p)), DecimalPos.Unsigned.of_to. reflexivity. }
  destruct (Pos.to_uint p) as [| d | d | d | d | d | d | d | d | d | d] eqn:E;
    try (eexists; eexists; cbn [uint_units];
         split; [reflexivity|]; split; [reflexivity|];
         split; [discriminate|]; split; [discriminate|];
         eexists; reflexivity).
  - exfalso. now apply (DecimalPos.Unsigned.to_uint_nonnil p).
  - exfalso. rewrite DecimalFacts.unorm_D0 in Hnorm. unfold Decimal.unorm in Hnorm.
    destruct (Decimal.nzhead d) eqn:En; try discriminate.
    + injection Hnorm as ->. now apply (DecimalPos.Unsigned.to_uint_nonzero p).
    + exact (DecimalFacts.nzhead_nonzero d _ En).
Qed.

Lemma units_uint_units (d : Decimal.uint) : units_uint (uint_units d) = Some d.
Proof.
  induction d; cbn [uint_units units_uint]; rewrite ?IHd; reflexivity.
Qed.

Lemma integer_of_Number_toString (n : Z) :
  integer_of_literal (Number_toString n) = Some n.
Proof.
  destruct n as [| p | p]; cbn [Number_toString].
  - reflexivity.
  - destruct (to_uint_head p) as (c & r & E & _ & _ & H45 & _).
    unfold integer_of_literal. rewrite E.
    apply Z.eqb_neq in H45. rewrite H45. rewrite <- E, units_uint_units.
    cbn [option_map]. unfold Z.of_uint. now rewrite DecimalPos.Unsigned.of_to.
  - destruct (to_uint_head p) as (c & r & E & _).
    unfold integer_of_literal. change (45 =? 45) with true. cbn iota.
    rewrite E, <- E, units_uint_units.
    cbn [option_map]. unfold Z.of_uint. now rewrite DecimalPos.Unsigned.of_to.
Qed.

Lemma scan_number_of_int (text i rest : jsstring) (c : code_unit) :
  c = 44 \/ c = 125 ->
  scan_int text = Some (i, c :: rest) ->
  scan_number text = Some (i, c :: rest).
Proof.
  intros Hc E. unfold scan_number. rewrite E.
  destruct Hc as [-> | ->]; cbn; now rewrite app_nil_r.
Qed.

Lemma scan_int_digits (p : positive) (c : code_unit) (rest : jsstring) :
  c = 44 \/ c = 125 ->
  scan_int (uint_units (Pos.to_uint p) ++ c :: rest)
  = Some (uint_units (Pos.to_uint p), c :: rest) /\
  scan_int (45 :: uint_units (Pos.to_uint p) ++ c :: rest)
  = Some (45 :: uint_units (Pos.to_uint p), c :: rest).
Proof.
  intros Hc.
  destruct (to_uint_head p) as (h & r & E & Hd & H48 & H45 & d & ->).
  rewrite E. cbn [app].
  assert (Hspan : span_digits (uint_units d ++ c :: rest) = (uint_units d, c :: rest)).
  { apply span_digits_units. destruct Hc as [-> | ->]; reflexivity. }
  apply Z.eqb_neq in H45. apply Z.eqb_neq in H48.
  unfold scan_int. change (45 =? 45) with true. cbn iota.
  rewrite H45, H48, Hd, Hspan. split; reflexivity.
Qed.

Lemma scan_Number_toString (n : Z) (c : code_unit) (rest : jsstring) :
  c = 44 \/ c = 125 ->
  scan_number (Number_toString n ++ c :: rest)
  = Some (Number_toString n, c :: rest).
Proof.
  intros Hc. apply scan_number_of_int; [exact Hc|].
  destruct n as [| p | p]; cbn [Number_toString].
  - reflexivity.
  - now apply scan_int_digits.
  - now apply scan_int_digits.
Qed.

(** ** The parser on the text [JSON.stringify] writes *)

Lemma parse_value_at_quote (f : nat) (X : jsstring) :
  parse_value (S f) (34 :: X) =
  match scan_string X with
  | Some (str, r') => Some (JString str, r')
  | None => None
  end.
Proof. reflexivity. Qed.

Lemma parse_value_quoted (f : nat) (s rest : jsstring) :
  valid_string s ->
  parse_value (S f) (QuoteJSONString s ++ rest) = Some (JString s, rest).
Proof.
  intros Hv. unfold QuoteJSONString. cbn [app]. rewrite <- app_assoc. cbn [app].
  rewrite parse_value_at_quote, scan_quote_body by exact Hv. reflexivity.
Qed.

Lemma parse_value_at_numeric (f : nat) (h : code_unit) (X : jsstring) :
  is_digit h = true \/ h = 45 ->
  parse_value (S f) (h :: X) =
  match scan_number (h :: X) with
  | Some (n, r') => Some (JNumber n, r')
  | None => None
  end.
Proof.
  intros H.
  assert (Hr : 48 <= h <= 57 \/ h = 45).
  { destruct H as [H | H]; [left | right; exact H].
    unfold is_digit in H. apply andb_prop in H. destruct H as [H1 H2].
    apply Z.leb_le in H1. apply Z.leb_le in H2. lia. }
  assert (Hws : skip_ws (h :: X) = h :: X).
  { cbn [skip_ws]. unfold is_json_ws.
    repeat match goal with
           | |- context [Z.eqb ?a ?b] =>
               destruct (Z.eqb_spec a b); [exfalso; lia|]
           end.
    reflexivity. }
  cbn [parse_value]. rewrite Hws.
  change (js "null") with [110; 117; 108; 108].
  change (js "true") with [116; 114; 117; 101].
  change (js "false") with [102; 97; 108; 115; 101].
  cbn [strip_prefix].
  repeat match goal with
         | |- context [Z.eqb ?a ?b] =>
             destruct (Z.eqb_spec a b); [exfalso; lia|]
         end.
  reflexivity.
Qed.

Lemma Number_toString_head (n : Z) :
  exists h r, Number_toString n = h :: r /\ (is_digit h = true \/ h = 45).
Proof.
  destruct n as [| p | p]; cbn [Number_toString].
  - exists 48, []. split; [reflexivity | left; reflexivity].
  - destruct (to_uint_head p) as (h & r & E & Hd & _).
    exists h, r. split; [exact E | left; exact Hd].
  - eexists. eexists. split; [reflexivity | right; reflexivity].
Qed.

Lemma parse_value_integer (f : nat) (n : Z) (c : code_unit) (rest : jsstring) :
  c = 44 \/ c = 125 ->
  parse_value (S f) (Number_toString n ++ c :: rest)
  = Some (JNumber (Number_toString n), c :: rest).
Proof.
  intros Hc. pose proof (scan_Number_toString n c rest Hc) as Hs.
  destruct (Number_toString_head n) as (h & r & E & Hh).
  rewrite E in *. cbn [app] in *.
  rewrite parse_value_at_numeric by exact Hh. now rewrite Hs.
Qed.

Lemma parse_members_at_quote (f : nat) (X : jsstring) :
  parse_members (S f) (34 :: X) =
  match scan_string X with
  | Some (key, r) =>
      match skip_ws r with
      | [] => None
      | colon :: r1 =>
          if colon =? 58 then
            match parse_value f r1 with
            | Some (v, r2) =>
                match skip_ws r2 with
                | [] => None
                | c :: r3 =>
                    if c =? 44 then cons_fst (key, v) (parse_members f r3)
                    else if c =? 125 then Some ([(key, v)], r3)
                    else None
                end
            | None => None
            end
          else None
      end
  | None => None
  end.
Proof. reflexivity. Qed.

Lemma parse_members_more (f : nat) (key vt more : jsstring) (v : JSON) :
  valid_string key ->
  parse_value f (vt ++ 44 :: more) = Some (v, 44 :: more) ->
  parse_members (S f) (stringify_member key vt ++ 44 :: more)
  = cons_fst (key, v) (parse_members f more).
Proof.
  intros Hk Hv. unfold stringify_member, QuoteJSONString.
  cbn [app]. rewrite <- !app_assoc. cbn [app].
  rewrite parse_members_at_quote, scan_quote_body by exact Hk.
  change (skip_ws (58 :: vt ++ 44 :: more)) with (58 :: vt ++ 44 :: more).
  change (58 =? 58) with true. cbn iota. rewrite Hv. reflexivity.
Qed.

Lemma parse_members_last (f : nat) (key vt rest : jsstring) (v : JSON) :
  valid_string key ->
  parse_value f (vt ++ 125 :: rest) = Some (v, 125 :: rest) ->
  parse_members (S f) (stringify_member key vt ++ 125 :: rest)
  = Some ([(key, v)], rest).
Proof.
  intros Hk Hv. unfold stringify_member, QuoteJSONString.
  cbn [app]. rewrite <- !app_assoc. cbn [app].
  rewrite parse_members_at_quote, scan_quote_body by exact Hk.
  change (skip_ws (58 :: vt ++ 125 :: rest)) with (58 :: vt ++ 125 :: rest).
  change (58 =? 58) with true. cbn iota. rewrite Hv. reflexivity.
Qed.

Lemma parse_value_object (f : nat) (key vt X : jsstring) :
  parse_value (S f) (123 :: stringify_member key vt ++ X) =
  match parse_members f (stringify_member key vt ++ X) with
  | Some (l, r') => Some (JObject l, r')
  | None => None
  end.
Proof. reflexivity. Qed.

Lemma valid_string_js_name : valid_string (js "name").
Proof. repeat constructor; vm_compute; discriminate. Qed.
Lemma valid_string_js_number : valid_string (js "number").
Proof. repeat constructor; vm_compute; discriminate. Qed.
Lemma valid_string_js_id : valid_string (js "id").
Proof. repeat constructor; vm_compute; discriminate. Qed.
Lemma valid_string_js_date : valid_string (js "date").
Proof. repeat constructor; vm_compute; discriminate. Qed.

Ltac flatten_text :=
  cbn [join_commas app Nat.add];
  repeat (rewrite <- app_assoc; cbn [app]).

Lemma parse_player (f : nat) (p : Player.t) (rest : jsstring) :
  storable_player p ->
  parse_value (5 + f) (stringify_player p ++ rest) = Some (Player_toJSON p, rest).
Proof.
  intros (Hn & Hm & _). unfold stringify_player, stringify_object.
  flatten_text. rewrite parse_value_object.
  erewrite parse_members_more
    by (try apply valid_string_js_name; now apply parse_value_quoted).
  erewrite parse_members_more
    by (try apply valid_string_js_number; now apply parse_value_quoted).
  erewrite parse_members_last
    by (try apply valid_string_js_id; apply parse_value_integer; now right).
  reflexivity.
Qed.

Lemma parse_winner (f : nat) (r : Winner.t) (rest : jsstring) :
  storable_winner r ->
  parse_value (6 + f) (stringify_winner r ++ rest) = Some (Winner_toJSON r, rest).
Proof.
  intros (Hn & Hm & _ & Hd). unfold stringify_winner, stringify_object.
  flatten_text. rewrite parse_value_object.
  erewrite parse_members_more
    by (try apply valid_string_js_name; now apply parse_value_quoted).
  erewrite parse_members_more
    by (try apply valid_string_js_number; now apply parse_value_quoted).
  erewrite parse_members_more
    by (try apply valid_string_js_id; apply parse_value_integer; now left).
  erewrite parse_members_last
    by (try apply valid_string_js_date; now apply parse_value_quoted).
  reflexivity.
Qed.

Section Elements.
Variables (A : Type) (text : A -> jsstring) (val : A -> JSON)
          (ok : A -> Prop) (k : nat).
Hypothesis text_parses : forall a f rest,
  ok a -> parse_value (k + f) (text a ++ rest) = Some (val a, rest).
Hypothesis text_head : forall a, exists t, text a = 123 :: t.

Lemma parse_elements_join (l : list A) (f : nat) (rest : jsstring) :
  l <> [] -> Forall ok l ->
  parse_elements (List.length l + (k + f)) (join_commas (map text l) ++ 93 :: rest)
  = Some (map val l, rest).
Proof.
  revert f. induction l as [| a l IH]; intros f Hne Hok; [congruence|].
  inversion Hok as [| ? ? Ha Hl]; subst.
  destruct l as [| b l'].
  - cbn [List.length map join_commas Nat.add parse_elements].
    rewrite text_parses by exact Ha. reflexivity.
  - change (join_commas (map text (a :: b :: l')))
      with (text a ++ 44 :: join_commas (map text (b :: l'))).
    rewrite <- app_assoc. cbn [app].
    change (List.length (a :: b :: l') + (k + f))%nat
      with (S (List.length (b :: l') + (k + f))).
    cbn [parse_elements].
    replace (List.length (b :: l') + (k + f))%nat
      with (k + (List.length (b :: l') + f))%nat at 1 by lia.
    rewrite text_parses by exact Ha.
    change (skip_ws (44 :: join_commas (map text (b :: l')) ++ 93 :: rest))
      with (44 :: join_commas (map text (b :: l')) ++ 93 :: rest).
    change (44 =? 44) with true. cbn iota.
    rewrite IH by (try discriminate; exact Hl). reflexivity.
Qed.

Lemma parse_value_at_bracket (f : nat) (X : jsstring) :
  (exists t, X = 123 :: t) ->
  parse_value (S f) (91 :: X) =
  match parse_elements f X with
  | Some (l, r') => Some (JArray l, r')
  | None => None
  end.
Proof. intros (t & ->). reflexivity. Qed.

Lemma join_commas_head (l : list A) :
  l <> [] -> exists t, join_commas (map text l) = 123 :: t.
Proof.
  destruct l as [| a l]; [congruence|]. intros _.
  destruct (text_head a) as (t & Et).
  destruct l as [| b l'].
  - exists t. exact Et.
  - exists (t ++ 44 :: join_commas (map text (b :: l'))).
    change (join_commas (map text (a :: b :: l')))
      with (text a ++ 44 :: join_commas (map text (b :: l'))).
    now rewrite Et.
Qed.

Lemma join_commas_length (l : list A) :
  (List.length l <= List.length (join_commas (map text l)))%nat.
Proof.
  induction l as [| a l IH]; [apply Nat.le_refl|].
  destruct (text_head a) as (t & Et).
  destruct l as [| b l'].
  - cbn [map join_commas List.length]. rewrite Et. cbn [List.length]. lia.
  - change (join_commas (map text (a :: b :: l')))
      with (text a ++ 44 :: join_commas (map text (b :: l'))).
    rewrite length_app. cbn [List.length] in *. lia.
Qed.

Hypothesis fuel_small : (k <= 6)%nat.

Lemma JSON_parse_stringify_array (l : list A) :
  Forall ok l ->
  JSON_parse (stringify_array (map text l)) = Normal (JArray (map val l)).
Proof.
  intros Hok. destruct l as [| a l']; [reflexivity|].
  set (l := a :: l') in *.
  assert (Hne : l <> []) by discriminate.
  unfold JSON_parse, stringify_array.
  pose proof (join_commas_length l) as Hlen.
  destruct (join_commas_head l Hne) as (t & Ehead).
  assert (Hn : (1 <= List.length l)%nat) by (cbn; lia).
  set (body := join_commas (map text l)) in *.
  match goal with |- context [parse_value ?F _] => set (fuel := F) end.
  assert (Hfuel : fuel = S (List.length l + (k + (fuel - 1 - List.length l - k)))).
  { unfold fuel. cbn [List.length]. rewrite length_app. cbn [List.length]. lia. }
  rewrite Hfuel.
  rewrite parse_value_at_bracket
    by (exists (t ++ [93]); rewrite Ehead; reflexivity).
  unfold body. rewrite parse_elements_join by assumption.
  reflexivity.
Qed.
End Elements.

(** ** Reading the parsed values *)

Lemma Player_of_toJSON (p : Player.t) : Player_of_JSON (Player_toJSON p) = Some p.
Proof.
  destruct p as [n m i]. unfold Player_of_JSON, Player_toJSON.
  cbn [Player.name Player.number Player.id].
  change (as_string (get_member (js "name") _)) with (Some n).
  change (as_string (get_member (js "number") _)) with (Some m).
  change (as_integer (get_member (js "id") _))
    with (integer_of_literal (Number_toString i)).
  now rewrite integer_of_Number_toString.
Qed.

Lemma Winner_of_toJSON (r : Winner.t) : Winner_of_JSON (Winner_toJSON r) = Some r.
Proof.
  destruct r as [n m i d]. unfold Winner_of_JSON, Winner_toJSON.
  cbn [Winner.name Winner.number Winner.id Winner.date].
  change (as_string (get_member (js "name") _)) with (Some n).
  change (as_string (get_member (js "number") _)) with (Some m).
  change (as_string (get_member (js "date") _)) with (Some d).
  change (as_integer (get_member (js "id") _))
    with (integer_of_literal (Number_toString i)).
  now rewrite integer_of_Number_toString.
Qed.

Lemma all_some_map {A B : Type} (f : B -> option A) (g : A -> B) (l : list A) :
  (forall a, f (g a) = Some a) -> all_some f (map g l) = Some l.
Proof.
  intros H. induction l as [| a l IH]; cbn [map all_some]; [reflexivity|].
  now rewrite H, IH.
Qed.

Lemma stringify_player_head (p : Player.t) : exists t, stringify_player p = 123 :: t.
Proof. eexists. reflexivity. Qed.

Lemma stringify_winner_head (r : Winner.t) : exists t, stringify_winner r = 123 :: t.
Proof. eexists. reflexivity. Qed.

Lemma JSON_parse_stringify_players (l : list Player.t) :
  Forall storable_player l ->
  JSON_parse (stringify_players l) = Normal (JArray (map Player_toJSON l)).
Proof.
  apply (JSON_parse_stringify_array Player.t stringify_player Player_toJSON
           storable_player 5).
  - intros a f rest Ha. now apply parse_player.
  - exact stringify_player_head.
  - lia.
Qed.

Lemma JSON_parse_stringify_winners (l : list Winner.t) :
  Forall storable_winner l ->
  JSON_parse (stringify_winners l) = Normal (JArray (map Winner_toJSON l)).
Proof.
  apply (JSON_parse_stringify_array Winner.t stringify_winner Winner_toJSON
           storable_winner 6).
  - intros a f rest Ha. now apply parse_winner.
  - exact stringify_winner_head.
  - lia.
Qed.

(** X13: what the save effects write, the load effect of the next
    start reads back: for a pool and a history the component can hold
    (strings of 16-bit code units, integer ids below 2^53), loading the
    saved storage does not throw, and the two values it returns, read
    through the properties the component uses, are exactly that pool and
    that history, in order. *)
Theorem load_after_save (s : State) (st : Storage) :
  Forall storable_player (players s) ->
  Forall storable_winner (winnersHistory s) ->
  exists savedPlayers savedWinners,
    load (saveEffects s st) = Normal (savedPlayers, savedWinners) /\
    players_of_JSON savedPlayers = Some (players s) /\
    winners_of_JSON savedWinners = Some (winnersHistory s).
Proof.
  intros Hp Hw.
  exists (JArray (map Player_toJSON (players s))),
         (JArray (map Winner_toJSON (winnersHistory s))).
  split; [| split].
  - unfold load, saveEffects. cbn [lotteryPlayers lotteryWinners].
    change (getItem_or (Some (stringify_players (players s))) (js "[]"))
      with (stringify_players (players s)).
    change (getItem_or (Some (stringify_winners (winnersHistory s))) (js "[]"))
      with (stringify_winners (winnersHistory s)).
    now rewrite JSON_parse_stringify_players, JSON_parse_stringify_winners.
  - apply all_some_map, Player_of_toJSON.
  - apply all_some_map, Winner_of_toJSON.
Qed.

Lemma load_after_save_witness :
  let s := setWinnersHistory [spread_with_date carol sampleDate]
             (setPlayers [alice; bob] initialState) in
  exists savedPlayers savedWinners,
    load (saveEffects s (mkStorage None None)) = Normal (savedPlayers, savedWinners) /\
    players_of_JSON savedPlayers = Some [alice; bob] /\
    winners_of_JSON savedWinners = Some [spread_with_date carol sampleDate].
Proof.
  cbv zeta.
  apply (load_after_save
           (setWinnersHistory [spread_with_date carol sampleDate]
              (setPlayers [alice; bob] initialState))).
  - repeat constructor; vm_compute; discriminate.
  - repeat constructor; vm_compute; discriminate.
Defined.
